(** * Module execution and access control of the secure web application

    A shallow embedding of the three server-side units that decide who may run
    which module, with which parameters, and how the script is started:

    - [src/security/inputValidation.js]  (module [InputValidation]),
    - [src/services/roles/roleService.js] (module [RoleService]),
    - [src/services/tasks/taskService.js] (module [TaskService]),

    with the writing half of the role service (module [RoleAdmin]) and the
    execute route with its access check (module [ModuleRoutes]).

    JavaScript strings are sequences of UTF-16 code units; objects used as
    mappings are kept as lists of own properties in creation order, with
    [Object.prototype] behind them: a lookup that finds no own property
    answers with the inherited member, an assignment to [__proto__] creates
    no property, and [Object.entries] lists the properties named by array
    indices first, in ascending order.  Built-ins
    of the JavaScript runtime whose behaviour is not part of the repository
    (number parsing and printing, [JSON.parse], the regular expression engine,
    Unicode lower-casing) are the fields of the class [JSRuntime]; everything
    that is proved holds for every such runtime.  Logger calls have no
    influence on results or control flow and are left out. *)

From Stdlib Require Import List NArith ZArith Bool String Ascii DecimalString Lia.
From Stdlib Require Import Permutation Sorted.
Import ListNotations.

Set Implicit Arguments.
Set Warnings "-register-all".

(* ================================================================== *)
(** * JavaScript data *)
(* ================================================================== *)

Module JS.

(** A string is its list of UTF-16 code units. *)
Definition jsstring := list N.

(** The code units of an ASCII literal. *)
Definition js (s : string) : jsstring :=
  map N_of_ascii (list_ascii_of_string s).

Fixpoint eqb_js (a b : jsstring) : bool :=
  match a, b with
  | [], [] => true
  | x :: a', y :: b' => N.eqb x y && eqb_js a' b'
  | _, _ => false
  end.

(** [!s] for a string: only the empty string is falsy. *)
Definition nonempty (s : jsstring) : bool :=
  match s with [] => false | _ => true end.

(** [a.join(sep)] on an array of strings. *)
Fixpoint join (sep : jsstring) (l : list jsstring) : jsstring :=
  match l with
  | [] => []
  | [x] => x
  | x :: rest => x ++ sep ++ join sep rest
  end.

(** [s.split(c)] for a separator of one code unit. *)
Fixpoint split_on (sep : N) (s : jsstring) : list jsstring :=
  match s with
  | [] => [[]]
  | c :: t =>
      if N.eqb c sep then [] :: split_on sep t
      else match split_on sep t with
           | h :: r => (c :: h) :: r
           | [] => [[c]]
           end
  end.

Definition in_range (lo hi c : N) : bool := N.leb lo c && N.leb c hi.

(** WhiteSpace and LineTerminator code points, the ones [trim] removes. *)
Definition isWhiteSpace (c : N) : bool :=
  in_range 9 13 c || N.eqb c 32 || N.eqb c 160 || N.eqb c 5760
  || in_range 8192 8202 c || N.eqb c 8232 || N.eqb c 8233
  || N.eqb c 8239 || N.eqb c 8287 || N.eqb c 12288 || N.eqb c 65279.

Fixpoint trimStart (s : jsstring) : jsstring :=
  match s with
  | c :: t => if isWhiteSpace c then trimStart t else s
  | [] => []
  end.

Definition trimEnd (s : jsstring) : jsstring := rev (trimStart (rev s)).

Definition trim (s : jsstring) : jsstring := trimEnd (trimStart s).

(** JavaScript values as they arrive from a JSON body or sit in a Mixed
    schema field, and the built-in functions a property lookup can reach
    through [Object.prototype], each known by its name.  [number] is the
    runtime's number type. *)
Inductive value (number : Type) : Type :=
| VUndefined
| VNull
| VBool (b : bool)
| VNumber (n : number)
| VString (s : jsstring)
| VArray (items : list (value number))
| VObject (props : list (jsstring * value number))
| VFunction (fname : jsstring).

Arguments VUndefined {number}.
Arguments VNull {number}.
Arguments VBool {number} b.
Arguments VString {number} s.
Arguments VFunction {number} fname.

(** Built-ins of the runtime. *)
Class JSRuntime : Type := {
  number : Type;
  (** global [isNaN] on a number *)
  Number_isNaN : number -> bool;
  (** truthiness of a number: neither zero nor NaN *)
  Number_toBoolean : number -> bool;
  (** [Number(s)] on a string *)
  Number_ofString : jsstring -> number;
  (** [String(n)], as used by template literals *)
  Number_toString : number -> jsstring;
  (** [a - b] *)
  Number_sub : number -> number -> number;
  (** [s.toLowerCase()] *)
  String_toLowerCase : jsstring -> jsstring;
  (** [JSON.parse(s)]; [None] when it throws a SyntaxError *)
  JSON_parse : jsstring -> option (value number);
  (** compiled regular expressions *)
  RegExp : Type;
  (** [new RegExp(p)]; [inl msg] when it throws a SyntaxError *)
  RegExp_new : jsstring -> jsstring + RegExp;
  (** [re.test(s)] for an expression without flags *)
  RegExp_test : RegExp -> jsstring -> bool
}.

Section Values.
Context {rt : JSRuntime}.

Definition val := value number.

(** [v === undefined || v === null] *)
Definition nullish (v : val) : bool :=
  match v with VUndefined | VNull => true | _ => false end.

Definition is_undefined (v : val) : bool :=
  match v with VUndefined => true | _ => false end.

(** ToBoolean *)
Definition truthy (v : val) : bool :=
  match v with
  | VUndefined | VNull => false
  | VBool b => b
  | VNumber n => Number_toBoolean n
  | VString s => nonempty s
  | VArray _ | VObject _ | VFunction _ => true
  end.

(** ToString, as applied by template literals, for JSON-shaped values; a
    built-in function prints as its native-code source text. *)
Fixpoint ToString (v : val) : jsstring :=
  match v with
  | VUndefined => js "undefined"
  | VNull => js "null"
  | VBool true => js "true"
  | VBool false => js "false"
  | VNumber n => Number_toString n
  | VString s => s
  | VArray items =>
      join (js ",")
        (map (fun x => if nullish x then [] else ToString x) items)
  | VObject _ => js "[object Object]"
  | VFunction fname => js "function " ++ fname ++ js "() { [native code] }"
  end.

(** Objects used as mappings: own properties in creation order.  They are
    ordinary objects (an object literal, a parsed JSON object), so their
    prototype is [Object.prototype]. *)
Definition JSObject := list (jsstring * val).

(** The function-valued members of [Object.prototype], by property name. *)
Definition Object_prototype_methods : list jsstring :=
  [js "constructor"; js "__defineGetter__"; js "__defineSetter__";
   js "hasOwnProperty"; js "__lookupGetter__"; js "__lookupSetter__";
   js "isPrototypeOf"; js "propertyIsEnumerable"; js "toString";
   js "valueOf"; js "toLocaleString"].

(** [k in Object.prototype] *)
Definition Object_prototype_has (k : jsstring) : bool :=
  eqb_js k (js "__proto__") || existsb (eqb_js k) Object_prototype_methods.

(** [Object.prototype[k]] read through an ordinary object: [constructor] is
    the function [Object], the other methods carry their own name, the
    getter of [__proto__] answers the prototype itself, an object without
    enumerable properties. *)
Definition Object_prototype_get (k : jsstring) : val :=
  if eqb_js k (js "constructor") then VFunction (js "Object")
  else if existsb (eqb_js k) Object_prototype_methods then VFunction k
  else if eqb_js k (js "__proto__") then VObject []
  else VUndefined.

(** [o[k]]: the own property, or else what the prototype holds. *)
Fixpoint obj_get (o : JSObject) (k : jsstring) : val :=
  match o with
  | [] => Object_prototype_get k
  | (k', v) :: rest => if eqb_js k' k then v else obj_get rest k
  end.

Fixpoint obj_has (o : JSObject) (k : jsstring) : bool :=
  match o with
  | [] => false
  | (k', _) :: rest => eqb_js k' k || obj_has rest k
  end.

(** Definition of an own data property: an existing one keeps its place, a
    new one goes last. *)
Fixpoint obj_define (o : JSObject) (k : jsstring) (v : val) : JSObject :=
  match o with
  | [] => [(k, v)]
  | (k', v') :: rest =>
      if eqb_js k' k then (k', v) :: rest else (k', v') :: obj_define rest k v
  end.

(** [o[k] = v] on an object whose prototype is [Object.prototype].  Every
    member of [Object.prototype] is a writable data property, so the
    assignment defines an own property, except [__proto__]: that one is an
    accessor whose setter changes the prototype (or does nothing, for a
    value that is neither an object nor [null]) and no own property comes
    of it.  The list keeps the own properties; a statement that reads an
    object again after such an assignment, or that depends on a second
    assignment to [__proto__], excludes the name or takes pairwise distinct
    names. *)
Definition obj_set (o : JSObject) (k : jsstring) (v : val) : JSObject :=
  if eqb_js k (js "__proto__") then o else obj_define o k v.

(** A property name that is an array index: the canonical decimal form of
    an integer from 0 to 2^32 - 2. *)
Definition digit_value (c : N) : option N :=
  if in_range 48 57 c then Some (c - 48)%N else None.

Fixpoint digits_value (acc : N) (s : jsstring) : option N :=
  match s with
  | [] => Some acc
  | c :: t =>
      match digit_value c with
      | Some d => digits_value (10 * acc + d)%N t
      | None => None
      end
  end.

Definition array_index (k : jsstring) : option N :=
  match k with
  | [] => None
  | c :: t =>
      if N.eqb c 48 && nonempty t then None
      else match digits_value 0 k with
           | Some n => if N.ltb n 4294967295 then Some n else None
           | None => None
           end
  end.

Definition is_array_index (k : jsstring) : bool :=
  match array_index k with Some _ => true | None => false end.

(** The own properties named by array indices, in ascending index order. *)
Fixpoint insert_indexed (i : N) (e : jsstring * val)
    (l : list (N * (jsstring * val))) : list (N * (jsstring * val)) :=
  match l with
  | [] => [(i, e)]
  | (j, e') :: rest =>
      if N.leb i j then (i, e) :: l else (j, e') :: insert_indexed i e rest
  end.

Definition indexed_entries (o : JSObject) : list (N * (jsstring * val)) :=
  fold_right
    (fun e acc =>
       match array_index (fst e) with
       | Some i => insert_indexed i e acc
       | None => acc
       end)
    [] o.

(** [Object.entries(o)]: the properties named by array indices in ascending
    order, then the others in creation order. *)
Definition Object_entries (o : JSObject) : list (jsstring * val) :=
  map snd (indexed_entries o)
  ++ filter (fun e => negb (is_array_index (fst e))) o.

(** Error objects: the message and the two properties the services read or
    attach. *)
Record JSError : Type := mkError {
  message : jsstring;
  stderr : val;
  executionTime : val
}.

(** [new Error(msg)] *)
Definition Error (msg : jsstring) : JSError :=
  mkError msg VUndefined VUndefined.

(** The result of a call that may throw. *)
Inductive outcome (A : Type) : Type :=
| Ok (a : A)
| Throw (e : JSError).

Arguments Ok {A} a.
Arguments Throw {A} e.

Definition bind {A B} (m : outcome A) (k : A -> outcome B) : outcome B :=
  match m with
  | Ok a => k a
  | Throw e => Throw e
  end.

(** [try { m } catch (error) { h(error) }] *)
Definition try_catch {A} (m : outcome A) (h : JSError -> outcome A) : outcome A :=
  match m with
  | Ok a => Ok a
  | Throw e => h e
  end.

End Values.

Arguments Ok {rt A} a.
Arguments Throw {rt A} e.

End JS.

Export JS.

Notation "x <- m ;; k" := (bind m (fun x => k))
  (at level 61, m at next level, right associativity).

(* ================================================================== *)
(** * src/security/inputValidation.js *)
(* ================================================================== *)

Module InputValidation.
Section WithRuntime.
Context {rt : JSRuntime}.

(** The declared type of a parameter: the four members of the schema's enum,
    and any other string, which reaches the [default] branch of the switch. *)
Inductive ParamType : Type :=
| TString
| TNumber
| TBoolean
| TArray
| TOther (t : jsstring).

(** One entry of [parameterDefinitionSchema].  [defaultValue] is a Mixed
    field whose schema default is [null]; [validationPattern] and
    [validationMessage] are strings or [null] ([None]). *)
Record ParameterDefinition : Type := mkDef {
  name : jsstring;
  description : jsstring;
  type : ParamType;
  required : bool;
  defaultValue : val;
  validationPattern : option jsstring;
  validationMessage : option jsstring
}.

(** [/[a-z0-9_]/] *)
Definition isModuleIdChar (c : N) : bool :=
  in_range 97 122 c || in_range 48 57 c || N.eqb c 95.

(** [sanitizeModuleId]: [None] is the [null] result. *)
Definition sanitizeModuleId (moduleId : val) : option jsstring :=
  match moduleId with
  | VString s =>
      if negb (nonempty s) then None
      else Some (filter isModuleIdChar (String_toLowerCase (trim s)))
  | _ => None
  end.

(** [/[\x00-\x08\x0B\x0C\x0E-\x1F\x7F]/] *)
Definition isControlChar (c : N) : bool :=
  in_range 0 8 c || N.eqb c 11 || N.eqb c 12 || in_range 14 31 c
  || N.eqb c 127.

(** [.replace(/[\x00-\x08\x0B\x0C\x0E-\x1F\x7F]/g, '')] *)
Definition strip_control (s : jsstring) : jsstring :=
  filter (fun c => negb (isControlChar c)) s.

(** [.replace(/\r\n/g, '\n')]: one scan from the left, matches do not
    overlap and the replacement text is not scanned again. *)
Fixpoint replace_crlf (s : jsstring) : jsstring :=
  match s with
  | [] => []
  | c :: t =>
      match t with
      | d :: t' =>
          if N.eqb c 13 && N.eqb d 10 then 10%N :: replace_crlf t'
          else c :: replace_crlf t
      | [] => [c]
      end
  end.

Definition sanitizeString (value : val) : jsstring :=
  match value with
  | VString s => trim (replace_crlf (strip_control s))
  | _ => []
  end.

(** The object [validateParameterType] returns: [{ error }] or [{ value }]. *)
Inductive TypeResult : Type :=
| TError (error : jsstring)
| TValue (value : val).

Definition validateParameterType (name : jsstring) (value : val)
    (type : ParamType) : TypeResult :=
  match type with
  | TString =>
      match value with
      | VString _ => TValue (VString (sanitizeString value))
      | _ => TError (js "Parameter " ++ name ++ js " must be a string")
      end
  | TNumber =>
      match value with
      | VString s =>
          let num := Number_ofString s in
          if Number_isNaN num
          then TError (js "Parameter " ++ name ++ js " must be a valid number")
          else TValue (VNumber num)
      | VNumber n =>
          if Number_isNaN n
          then TError (js "Parameter " ++ name ++ js " must be a number")
          else TValue value
      | _ => TError (js "Parameter " ++ name ++ js " must be a number")
      end
  | TBoolean =>
      match value with
      | VString s =>
          let lower := String_toLowerCase s in
          if eqb_js lower (js "true") then TValue (VBool true)
          else if eqb_js lower (js "false") then TValue (VBool false)
          else TError (js "Parameter " ++ name
                         ++ js " must be a boolean (true/false)")
      | VBool _ => TValue value
      | _ => TError (js "Parameter " ++ name ++ js " must be a boolean")
      end
  | TArray =>
      match value with
      | VString s =>
          match JSON_parse s with
          | Some parsed =>
              match parsed with
              | VArray _ => TValue parsed
              | _ => TError (js "Parameter " ++ name ++ js " must be an array")
              end
          | None =>
              TValue (VArray (map (fun v => VString (trim v)) (split_on 44 s)))
          end
      | VArray items =>
          TValue (VArray (map (fun item =>
                                 match item with
                                 | VString _ => VString (sanitizeString item)
                                 | _ => item
                                 end) items))
      | _ => TError (js "Parameter " ++ name ++ js " must be an array")
      end
  | TOther t => TError (js "Unsupported parameter type: " ++ t)
  end.

(** [def.validationPattern && ...]: a pattern that is neither [null] nor
    empty. *)
Definition pattern_of (def : ParameterDefinition) : option jsstring :=
  match validationPattern def with
  | Some p => if nonempty p then Some p else None
  | None => None
  end.

(** [def.validationMessage || `Invalid format for parameter: ${name}`] *)
Definition pattern_message (def : ParameterDefinition) : jsstring :=
  match validationMessage def with
  | Some m => if nonempty m then m
              else js "Invalid format for parameter: " ++ name def
  | None => js "Invalid format for parameter: " ++ name def
  end.

Definition is_TString (t : ParamType) : bool :=
  match t with TString => true | _ => false end.

(** The two accumulators of [validateParameters]. *)
Definition vstate : Type := JSObject * list jsstring.

(** The body of the [forEach] callback; each [return] ends the step. *)
Definition validate_def (params : JSObject) (st : vstate)
    (def : ParameterDefinition) : outcome vstate :=
  let '(validated, errors) := st in
  let name := name def in
  let value := obj_get params name in
  if required def && nullish value then
    Ok (validated, errors ++ [js "Missing required parameter: " ++ name])
  else if nullish value && negb (is_undefined (defaultValue def)) then
    Ok (obj_set validated name (defaultValue def), errors)
  else if nullish value then
    Ok (validated, errors)
  else
    match validateParameterType name value (type def) with
    | TError error => Ok (validated, errors ++ [error])
    | TValue v =>
        match (if is_TString (type def) && truthy v
               then pattern_of def else None) with
        | Some p =>
            match RegExp_new p with
            | inl msg => Throw (Error msg)
            | inr regexp =>
                if negb (RegExp_test regexp (ToString v))
                then Ok (validated, errors ++ [pattern_message def])
                else Ok (obj_set validated name v, errors)
            end
        | None => Ok (obj_set validated name v, errors)
        end
    end.

(** [definitions.forEach(def => ...)]: an exception ends the iteration. *)
Fixpoint validate_defs (params : JSObject) (st : vstate)
    (definitions : list ParameterDefinition) : outcome vstate :=
  match definitions with
  | [] => Ok st
  | def :: rest =>
      st' <- validate_def params st def ;;
      validate_defs params st' rest
  end.

(** [params || {}]; [None] stands for a [null] or [undefined] argument,
    [Some o] for an ordinary object, as parsed from a JSON body. *)
Definition params_object (params : option JSObject) : JSObject :=
  match params with
  | Some o => o
  | None => []
  end.

Definition validateParameters (params : option JSObject)
    (definitions : list ParameterDefinition) : outcome JSObject :=
  let params := params_object params in
  st <- validate_defs params ([], []) definitions ;;
  let '(validated, errors) := st in
  match errors with
  | _ :: _ =>
      let errorMessage := join (js "; ") errors in
      Throw (Error (js "Invalid parameters: " ++ errorMessage))
  | [] => Ok validated
  end.

End WithRuntime.
End InputValidation.

(* ================================================================== *)
(** * src/services/roles/roleService.js *)
(* ================================================================== *)

Module RoleService.
Section WithRuntime.
Context {rt : JSRuntime}.

(** [permissionSchema] and [roleSchema] of [src/models/role.js]. *)
Record Permission : Type := mkPermission {
  moduleId : jsstring;
  permDescription : jsstring
}.

Record Role : Type := mkRole {
  name : jsstring;
  description : jsstring;
  level : Z;
  permissions : list Permission
}.

(** The two queries the service sends to the role collection. *)
Inductive RoleQuery : Type :=
| FindOneByName (roleName : jsstring)
| FindLevelGte (lvl : Z).

(** The role collection: its documents in natural order, and for each query
    whether the driver rejects it (connection lost, time-out, ...). *)
Record RoleDb : Type := mkRoleDb {
  roles : list Role;
  fault : RoleQuery -> option JSError
}.

(** [Role.findOne({ name: roleName })].  The filter is cast by the schema
    before it is sent: [name] is declared with [trim: true], and the setter
    runs on query filters as it does on documents, so the collection is
    searched for the trimmed name. *)
Definition Role_findOne (db : RoleDb) (roleName : jsstring)
    : outcome (option Role) :=
  match fault db (FindOneByName roleName) with
  | Some e => Throw e
  | None => Ok (find (fun r => eqb_js (name r) (trim roleName)) (roles db))
  end.

(** [Role.find({ level: { $gte: lvl } })] *)
Definition Role_find_level_gte (db : RoleDb) (lvl : Z)
    : outcome (list Role) :=
  match fault db (FindLevelGte lvl) with
  | Some e => Throw e
  | None => Ok (filter (fun r => Z.geb (level r) lvl) (roles db))
  end.

(** [Set.prototype.add] on a set of strings kept in insertion order. *)
Definition Set_add (s : list jsstring) (x : jsstring) : list jsstring :=
  if existsb (eqb_js x) s then s else s ++ [x].

Definition getRoleByName (db : RoleDb) (roleName : jsstring)
    : outcome (option Role) :=
  try_catch
    (role <- Role_findOne db roleName ;; Ok role)
    (fun error => Throw error).

Definition getAccessibleModules (db : RoleDb) (roleName : jsstring)
    : outcome (list jsstring) :=
  try_catch
    (role <- getRoleByName db roleName ;;
     match role with
     | None => Ok []
     | Some role =>
         roles <- Role_find_level_gte db (level role) ;;
         let modules :=
           fold_left
             (fun modules role =>
                fold_left
                  (fun modules permission =>
                     Set_add modules (moduleId permission))
                  (permissions role) modules)
             roles [] in
         Ok modules
     end)
    (fun error => Throw error).

Definition hasModuleAccess (db : RoleDb) (roleName moduleId : jsstring)
    : outcome bool :=
  try_catch
    (modules <- getAccessibleModules db roleName ;;
     Ok (existsb (eqb_js moduleId) modules))
    (fun error => Ok false).

End WithRuntime.
End RoleService.

(* ================================================================== *)
(** * src/services/tasks/taskService.js *)
(* ================================================================== *)

Module TaskService.
Import InputValidation.
Section WithRuntime.
Context {rt : JSRuntime}.

(** The fields of [moduleSchema] the service reads. *)
Record Module : Type := mkModule {
  moduleId : jsstring;
  scriptName : jsstring;
  parameterDefinitions : list ParameterDefinition;
  isActive : bool
}.

(** How the race of [execFile] against the timer is settled. *)
Inductive Settled : Type :=
| Resolved (stdout stderr : jsstring)
| Rejected (error : JSError)
| TimerFired.

(** What the service sees of the process it runs in: the module collection
    (and whether the driver rejects a lookup), the file system, the child
    processes and the clock. *)
Record World : Type := mkWorld {
  modules : list Module;
  module_fault : jsstring -> option JSError;
  cwd : jsstring;
  path_join : list jsstring -> jsstring;
  existsSync : jsstring -> bool;
  process_env : list (jsstring * jsstring);
  MAX_SCRIPT_RUNTIME : number;
  execFile : jsstring -> list jsstring -> Settled;
  (** the successive readings of [Date.now()] *)
  Date_now : nat -> number
}.

(** The one observable effect: a child process is created. *)
Inductive Event : Type :=
| Spawn (file : jsstring) (args : list jsstring) (timeout : number)
        (env : list (jsstring * jsstring)) (shell : bool).

(** Computations that may throw and leave a trace of events. *)
Definition eff (A : Type) : Type := list Event * outcome A.

Definition pure_eff {A} (o : outcome A) : eff A := ([], o).

Definition eff_bind {A B} (m : eff A) (k : A -> eff B) : eff B :=
  match m with
  | (t, Ok a) => let '(t', r) := k a in (t ++ t', r)
  | (t, Throw e) => (t, Throw e)
  end.

Definition eff_catch {A} (m : eff A) (h : JSError -> eff A) : eff A :=
  match m with
  | (t, Ok a) => (t, Ok a)
  | (t, Throw e) => let '(t', r) := h e in (t ++ t', r)
  end.

(** [Module.findOne({ moduleId: id, isActive: true })]; the schema
    declares [moduleId] with [trim: true], and the filter is cast by it. *)
Definition Module_findOne (w : World) (id : jsstring)
    : outcome (option Module) :=
  match module_fault w id with
  | Some e => Throw e
  | None =>
      Ok (find (fun m => eqb_js (moduleId m) (trim id) && isActive m)
            (modules w))
  end.

Definition getModuleById (w : World) (moduleId : val) : outcome Module :=
  try_catch
    (match sanitizeModuleId moduleId with
     | None => Throw (Error (js "Invalid module ID"))
     | Some sanitizedModuleId =>
         if negb (nonempty sanitizedModuleId)
         then Throw (Error (js "Invalid module ID"))
         else
           module <- Module_findOne w sanitizedModuleId ;;
           match module with
           | None =>
               Throw (Error (js "Module not found: " ++ sanitizedModuleId))
           | Some module => Ok module
           end
     end)
    (fun error => Throw error).

(** [/[a-zA-Z0-9_.-]/] *)
Definition isScriptNameChar (c : N) : bool :=
  in_range 97 122 c || in_range 65 90 c || in_range 48 57 c
  || N.eqb c 95 || N.eqb c 46 || N.eqb c 45.

(** [getScriptPath]: [None] is the [null] result. *)
Definition getScriptPath (w : World) (scriptName : jsstring)
    : option jsstring :=
  let sanitizedName := filter isScriptNameChar scriptName in
  if negb (eqb_js sanitizedName scriptName) then None
  else
    let scriptPath := path_join w [cwd w; js "scripts"; sanitizedName] in
    if negb (existsSync w scriptPath) then None
    else Some scriptPath.

(** [paramsToArgs]: [args] grows by [push]. *)
Definition paramsToArgs (params : JSObject) : list jsstring :=
  fold_left
    (fun args entry =>
       let '(key, value) := entry in
       if nullish value then args
       else
         match value with
         | VBool b =>
             if b then args ++ [js "--" ++ key] else args
         | VArray items =>
             fold_left
               (fun args item =>
                  args ++ [js "--" ++ key ++ js "=" ++ ToString item])
               items args
         | _ => args ++ [js "--" ++ key ++ js "=" ++ ToString value]
         end)
    (Object_entries params) [].

(** [{ ...process.env, USER_ID: userId, SCRIPT_TIMEOUT_MS:
    timeout.toString() }] as the child receives it: the copy of the
    inherited variables with the two properties defined on it (an inherited
    variable of the same name keeps its place and takes the new value), of
    which the process gets one [key=value] for each property whose value is
    not [undefined]. *)
Definition child_env (w : World) (timeout : number) (userId : val)
    : list (jsstring * jsstring) :=
  let env :=
    obj_define
      (obj_define
         (map (fun kv => (fst kv, VString (snd kv))) (process_env w))
         (js "USER_ID") userId)
      (js "SCRIPT_TIMEOUT_MS") (VString (Number_toString timeout)) in
  flat_map
    (fun kv => if is_undefined (snd kv) then []
               else [(fst kv, ToString (snd kv))])
    (Object_entries env).

Definition executeScriptWithTimeout (w : World) (scriptPath : jsstring)
    (args : list jsstring) (timeout : number) (userId : val)
    : eff JSObject :=
  let startTime := Date_now w 0 in
  let env := child_env w timeout userId in
  let raced : eff (jsstring * jsstring) :=
    ([Spawn scriptPath args timeout env false],
     match execFile w scriptPath args with
     | Resolved stdout stderr => Ok (stdout, stderr)
     | Rejected error => Throw error
     | TimerFired =>
         Throw (Error (js "Script execution timed out after "
                         ++ Number_toString timeout ++ js "ms"))
     end) in
  eff_catch
    (eff_bind raced (fun result =>
       let executionTime := Number_sub (Date_now w 1) startTime in
       pure_eff (Ok [(js "stdout", VString (fst result));
                     (js "stderr", VString (snd result));
                     (js "executionTime", VNumber executionTime)])))
    (fun error =>
       let executionTime := Number_sub (Date_now w 1) startTime in
       pure_eff (Throw (mkError (message error) (stderr error)
                                (VNumber executionTime)))).

Definition executeScript (w : World) (moduleId : val)
    (parameters : option JSObject) (userId : val) : eff JSObject :=
  eff_catch
    (eff_bind (pure_eff (getModuleById w moduleId)) (fun module =>
     match getScriptPath w (scriptName module) with
     | None =>
         pure_eff (Throw (Error (js "Script not found: "
                                   ++ scriptName module)))
     | Some scriptPath =>
         eff_bind (pure_eff (validateParameters parameters
                               (parameterDefinitions module)))
           (fun validatedParams =>
         let args := paramsToArgs validatedParams in
         eff_bind (executeScriptWithTimeout w scriptPath args
                     (MAX_SCRIPT_RUNTIME w) userId)
           (fun result =>
         pure_eff (Ok [(js "success", VBool true);
                       (js "moduleId", moduleId);
                       (js "scriptName", VString (scriptName module));
                       (js "result", obj_get result (js "stdout"));
                       (js "executionTime",
                        obj_get result (js "executionTime"))])))
     end))
    (fun error =>
       pure_eff (Ok [(js "success", VBool false);
                     (js "moduleId", moduleId);
                     (js "error", VString (message error));
                     (js "stderr",
                      if truthy (stderr error) then stderr error
                      else VNull)])).

End WithRuntime.
End TaskService.

(* ================================================================== *)
(** * roleService.js: listing and changing roles *)
(* ================================================================== *)

Module RoleAdmin.
Import RoleService.
Section WithRuntime.
Context {rt : JSRuntime}.

(** What the document mapper does for the service besides the two queries
    of [RoleDb]: the subdocument it makes of a pushed
    [{ moduleId, description }] (the setters of [permissionSchema] apply),
    whether it rejects a [save] (validation or driver), a [deleteOne] or a
    [find], and the order in which [sort({ level: 1 })] returns the roles
    (the order of roles of one level is the driver's choice). *)
Record Odm : Type := mkOdm {
  cast_permission : jsstring -> jsstring -> Permission;
  save_fault : Role -> option JSError;
  deleteOne_fault : jsstring -> option JSError;
  find_fault : option JSError;
  sort_level : list Role -> list Role
}.

(** [Role.find({}).sort({ level: 1 })] *)
Definition Role_find_sorted (odm : Odm) (db : RoleDb) : outcome (list Role) :=
  match find_fault odm with
  | Some e => Throw e
  | None => Ok (sort_level odm (roles db))
  end.

(** The stored document a loaded role stands for is the first of its name,
    the one [findOne] returned; [role.save()] writes it back. *)
Fixpoint replace_first (rs : list Role) (role : Role) : list Role :=
  match rs with
  | [] => []
  | r :: rest =>
      if eqb_js (name r) (name role) then role :: rest
      else r :: replace_first rest role
  end.

Definition Role_save (odm : Odm) (db : RoleDb) (role : Role)
    : outcome RoleDb :=
  match save_fault odm role with
  | Some e => Throw e
  | None => Ok (mkRoleDb (replace_first (roles db) role) (fault db))
  end.

(** [Role.deleteOne({ name: roleName })]: the new collection and
    [deletedCount].  The filter is cast like the one of [findOne]: the
    document deleted is the first whose name is the trimmed [roleName]. *)
Fixpoint remove_first (rs : list Role) (roleName : jsstring)
    : list Role * nat :=
  match rs with
  | [] => ([], O)
  | r :: rest =>
      if eqb_js (name r) roleName then (rest, 1%nat)
      else let '(rest', n) := remove_first rest roleName in (r :: rest', n)
  end.

Definition Role_deleteOne (odm : Odm) (db : RoleDb) (roleName : jsstring)
    : outcome (RoleDb * nat) :=
  match deleteOne_fault odm roleName with
  | Some e => Throw e
  | None =>
      let '(rs, deletedCount) := remove_first (roles db) (trim roleName) in
      Ok (mkRoleDb rs (fault db), deletedCount)
  end.

Definition getAllRoles (odm : Odm) (db : RoleDb) : outcome (list Role) :=
  try_catch
    (roles <- Role_find_sorted odm db ;; Ok roles)
    (fun error => Throw error).

(** [deleteRole]: the result and the collection it leaves. *)
Definition deleteRole (odm : Odm) (db : RoleDb) (roleName : jsstring)
    : outcome (bool * RoleDb) :=
  try_catch
    (if existsb (eqb_js roleName) [js "admin"; js "manager"; js "user"]
     then Throw (Error (js "Cannot delete core role: " ++ roleName))
     else
       result <- Role_deleteOne odm db roleName ;;
       let '(db', deletedCount) := result in
       if Nat.eqb deletedCount 0
       then Throw (Error (js "Role not found: " ++ roleName))
       else Ok (true, db'))
    (fun error => Throw error).

(** [addModulePermission]: the role returned and the collection left. *)
Definition addModulePermission (odm : Odm) (db : RoleDb)
    (roleName moduleId description : jsstring) : outcome (Role * RoleDb) :=
  try_catch
    (role <- getRoleByName db roleName ;;
     match role with
     | None => Throw (Error (js "Role not found: " ++ roleName))
     | Some role =>
         let existingPermission :=
           find (fun p => eqb_js (RoleService.moduleId p) moduleId)
             (permissions role) in
         match existingPermission with
         | Some _ => Ok (role, db)
         | None =>
             let role :=
               mkRole (name role) (RoleService.description role) (level role)
                 (permissions role
                    ++ [cast_permission odm moduleId description]) in
             db' <- Role_save odm db role ;;
             Ok (role, db')
         end
     end)
    (fun error => Throw error).

Definition removeModulePermission (odm : Odm) (db : RoleDb)
    (roleName moduleId : jsstring) : outcome (Role * RoleDb) :=
  try_catch
    (role <- getRoleByName db roleName ;;
     match role with
     | None => Throw (Error (js "Role not found: " ++ roleName))
     | Some role =>
         let role :=
           mkRole (name role) (RoleService.description role) (level role)
             (filter (fun p => negb (eqb_js (RoleService.moduleId p) moduleId))
                (permissions role)) in
         db' <- Role_save odm db role ;;
         Ok (role, db')
     end)
    (fun error => Throw error).

(** [getAllModulePermissions]: the Map keeps the first permission seen for
    each module identifier, in the order of first sight. *)
Definition getAllModulePermissions (odm : Odm) (db : RoleDb)
    : outcome (list Permission) :=
  try_catch
    (roles <- getAllRoles odm db ;;
     let modulePermissions :=
       fold_left
         (fun modulePermissions role =>
            fold_left
              (fun modulePermissions permission =>
                 if existsb (fun q => eqb_js (RoleService.moduleId q)
                                        (RoleService.moduleId permission))
                      modulePermissions
                 then modulePermissions
                 else modulePermissions
                        ++ [mkPermission (RoleService.moduleId permission)
                              (permDescription permission)])
              (permissions role) modulePermissions)
         roles [] in
     Ok modulePermissions)
    (fun error => Throw error).

End WithRuntime.
End RoleAdmin.

(* ================================================================== *)
(** * The execute route and its access check *)
(* ================================================================== *)

Module ModuleRoutes.
Import InputValidation TaskService.
Section WithRuntime.
Context {rt : JSRuntime}.

(** [req.user], the decoded token. *)
Record User : Type := mkUser {
  user_id : val;
  user_username : jsstring;
  user_role : jsstring
}.

(** [res.status(s).json(body)]; [res.json(body)] answers with status 200. *)
Inductive Response : Type :=
| Respond (status : nat) (body : val).

Definition error_body (msg : jsstring) : val :=
  VObject [(js "error", VString msg)].

(** [requireModuleAccess(moduleId)(req, res, next)] of
    [src/middleware/authMiddleware.js]. *)
Definition requireModuleAccess (db : RoleService.RoleDb) (moduleId : jsstring)
    (user : option User) (next : User -> list Event * Response)
    : list Event * Response :=
  match user with
  | None =>
      ([], Respond 401 (error_body (js "Unauthorized: Authentication required")))
  | Some u =>
      match RoleService.hasModuleAccess db (user_role u) moduleId with
      | Ok hasAccess =>
          if negb hasAccess
          then ([], Respond 403
                      (error_body
                         (js "Forbidden: You do not have access to this module")))
          else next u
      | Throw error =>
          ([], Respond 500 (error_body (js "Internal server error")))
      end
  end.

(** [POST /api/modules/:moduleId/execute], after [authenticateToken].
    The validator of [:moduleId] throws when [sanitizeModuleId] gives a
    falsy result, and the handler computes the same result again;
    [errorsArray] is what [errors.array()] holds then.  [parameters] is
    [req.body.parameters]: [None] when it is missing or [null], [Some o]
    when it is a JSON object. *)
Definition execute_route (w : World) (db : RoleService.RoleDb)
    (errorsArray : val) (user : option User) (rawModuleId : jsstring)
    (parameters : option JSObject) : list Event * Response :=
  match sanitizeModuleId (VString rawModuleId) with
  | None => ([], Respond 400 (VObject [(js "errors", errorsArray)]))
  | Some moduleId =>
      if negb (nonempty moduleId)
      then ([], Respond 400 (VObject [(js "errors", errorsArray)]))
      else
        requireModuleAccess db moduleId user
          (fun u =>
             match executeScript w (VString moduleId)
                     (Some (params_object parameters)) (user_id u) with
             | (t, Ok result) => (t, Respond 200 (VObject result))
             | (t, Throw error) =>
                 (t, Respond 500
                       (VObject [(js "error",
                                  VString (js "Error executing module"));
                                 (js "details", VString (message error))]))
             end)
  end.

End WithRuntime.
End ModuleRoutes.

(* ================================================================== *)
(** * A runtime and data for closed examples *)
(* ================================================================== *)

Module Sample.
Import InputValidation.

(** [asciiRuntime] implements the built-ins on the fragment the closed
    examples use: integers in decimal notation ([None] is NaN), ASCII
    letters, the JSON texts [null], [true], [false] and [[]], and regular
    expressions of the shape [^(w1|...|wn)$] over letters, digits and [_],
    which is the shape of every pattern of the default modules.  Outside the
    fragment it answers NaN or SyntaxError; the examples stay inside it. *)

Definition digit_of (c : N) : option Z :=
  if in_range 48 57 c then Some (Z.of_N (c - 48)) else None.

Fixpoint read_digits (acc : Z) (s : jsstring) : option Z :=
  match s with
  | [] => Some acc
  | c :: t =>
      match digit_of c with
      | Some d => read_digits (10 * acc + d) t
      | None => None
      end
  end.

Definition read_integer (s : jsstring) : option Z :=
  match trim s with
  | [] => Some 0%Z
  | c :: t =>
      if N.eqb c 45 then
        if nonempty t then option_map Z.opp (read_digits 0 t) else None
      else if N.eqb c 43 then
        if nonempty t then read_digits 0 t else None
      else read_digits 0 (c :: t)
  end.

Definition print_integer (n : option Z) : jsstring :=
  match n with
  | Some z => js (NilEmpty.string_of_int (Z.to_int z))
  | None => js "NaN"
  end.

Definition lower_ascii (s : jsstring) : jsstring :=
  map (fun c => if in_range 65 90 c then (c + 32)%N else c) s.

Definition isWordChar (c : N) : bool :=
  in_range 97 122 c || in_range 65 90 c || in_range 48 57 c || N.eqb c 95.

(** [^(w1|...|wn)$] read as its list of alternatives. *)
Definition read_alternatives (p : jsstring) : jsstring + list jsstring :=
  match p with
  | 94%N :: 40%N :: rest =>
      match rev rest with
      | 36%N :: 41%N :: body =>
          if forallb (fun c => isWordChar c || N.eqb c 124) body
          then inr (split_on 124 (rev body))
          else inl (js "Invalid regular expression")
      | _ => inl (js "Invalid regular expression")
      end
  | _ => inl (js "Invalid regular expression")
  end.

Definition parse_json_scalar (s : jsstring) : option (value (option Z)) :=
  if eqb_js s (js "null") then Some VNull
  else if eqb_js s (js "true") then Some (VBool true)
  else if eqb_js s (js "false") then Some (VBool false)
  else if eqb_js s (js "[]") then Some (VArray [])
  else None.

#[export] Instance asciiRuntime : JSRuntime := {|
  number := option Z;
  Number_isNaN := fun n => match n with None => true | Some _ => false end;
  Number_toBoolean :=
    fun n => match n with Some z => negb (Z.eqb z 0) | None => false end;
  Number_ofString := read_integer;
  Number_toString := print_integer;
  Number_sub :=
    fun a b => match a, b with
               | Some x, Some y => Some (x - y)%Z
               | _, _ => None
               end;
  String_toLowerCase := lower_ascii;
  JSON_parse := parse_json_scalar;
  RegExp := list jsstring;
  RegExp_new := read_alternatives;
  RegExp_test := fun alternatives s => existsb (eqb_js s) alternatives
|}.

(** The [format] parameter of the default module [system_info]. *)
Definition formatDef : ParameterDefinition :=
  mkDef (js "format") (js "Output format") TString false
    (VString (js "text")) (Some (js "^(text|json|csv)$"))
    (Some (js "Format must be one of: text, json, csv")).

(** The parameters of the module [disk_usage]: [min-size] and [format]. *)
Definition minSizeDef : ParameterDefinition :=
  mkDef (js "min-size") (js "Minimum size in MB") TNumber false
    (VNumber (Some 0%Z)) None None.

Definition diskFormatDef : ParameterDefinition :=
  mkDef (js "format") (js "Output format") TString false
    (VString (js "text")) (Some (js "^(text|json)$"))
    (Some (js "Format must be one of: text, json")).

(** A required parameter without a default, a required parameter with a
    default, an optional parameter without a default (the schema stores
    [null] for it), and an optional free text. *)
Definition targetDef : ParameterDefinition :=
  mkDef (js "target") (js "Directory to scan") TString true VNull None None.


Definition verboseDef : ParameterDefinition :=
  mkDef (js "verbose") (js "Verbose output") TBoolean false VNull None None.

Definition commentDef : ParameterDefinition :=
  mkDef (js "comment") (js "Free text") TString false VNull None None.

(** An optional text, an optional list and an optional switch of a given
    name, declared without a default in a definition that was not stored
    through the schema ([defaultValue] is [undefined]). *)
Definition textDef (name : string) : ParameterDefinition :=
  mkDef (js name) (js "Free text") TString false VUndefined None None.

Definition listDef (name : string) : ParameterDefinition :=
  mkDef (js name) (js "List") TArray false VUndefined None None.


(** An optional text whose default fails its own pattern, and two
    definitions of one name, the first with a pattern and without a
    default, the second with a default that fails that pattern. *)
Definition modeDef : ParameterDefinition :=
  mkDef (js "mode") (js "Output mode") TString false (VString (js "xml"))
    (Some (js "^(text|json)$")) None.

Definition strictLevelDef : ParameterDefinition :=
  mkDef (js "level") (js "Level") TString false VUndefined
    (Some (js "^(low|high)$")) None.

Definition looseLevelDef : ParameterDefinition :=
  mkDef (js "level") (js "Level") TString false (VString (js "medium"))
    None None.

(** A deployment with three modules: the default [system_info], a module
    whose script exits with a non-zero status, and a module whose
    executable name climbs out of the scripts directory towards a file that
    exists. *)
Definition sampleModules : list TaskService.Module :=
  [ TaskService.mkModule (js "system_info") (js "system-info.sh")
      [formatDef] true;
    TaskService.mkModule (js "broken") (js "broken.sh") [] true;
    TaskService.mkModule (js "backup") (js "../../etc/passwd") [] true ].

Definition sampleWorld : TaskService.World :=
  TaskService.mkWorld
    sampleModules
    (fun _ => None)
    (js "/app")
    (join (js "/"))
    (fun p => existsb (eqb_js p)
                [js "/app/scripts/system-info.sh";
                 js "/app/scripts/broken.sh";
                 js "/etc/passwd"])
    [(js "PATH", js "/usr/bin")]
    (Some 30000%Z)
    (fun file args =>
       if eqb_js file (js "/app/scripts/system-info.sh")
       then TaskService.Resolved (js "cpu: 4") []
       else TaskService.Rejected
              (mkError (js "Command failed: " ++ file) (VString (js "boom"))
                       VUndefined))
    (fun k => match k with O => Some 1000%Z | _ => Some 1250%Z end).

(** The same deployment with a script that outlives the timer. *)
Definition slowWorld : TaskService.World :=
  TaskService.mkWorld
    sampleModules (fun _ => None) (js "/app") (join (js "/"))
    (fun _ => true) [] (Some 100%Z)
    (fun _ _ => TaskService.TimerFired)
    (fun k => match k with O => Some 1000%Z | _ => Some 1100%Z end).

(** The default roles of [src/models/role.js]. *)
Definition defaultRoles : list RoleService.Role :=
  [ RoleService.mkRole (js "admin") (js "Administrator with full access") 0
      [ RoleService.mkPermission (js "user_management")
          (js "Manage users and roles");
        RoleService.mkPermission (js "system_config")
          (js "System configuration") ];
    RoleService.mkRole (js "manager") (js "Manager with elevated privileges")
      5
      [ RoleService.mkPermission (js "reports") (js "Access to reports") ];
    RoleService.mkRole (js "user") (js "Standard user") 10
      [ RoleService.mkPermission (js "dashboard") (js "User dashboard") ] ].

Definition sampleDb : RoleService.RoleDb :=
  RoleService.mkRoleDb defaultRoles (fun _ => None).

(** A mapper that trims the two strings of a pushed permission, as the
    setters of [permissionSchema] do, rejects nothing, and sorts by
    insertion. *)
Fixpoint insert_by_level (r : RoleService.Role) (rs : list RoleService.Role)
    : list RoleService.Role :=
  match rs with
  | [] => [r]
  | r' :: rest =>
      if Z.leb (RoleService.level r) (RoleService.level r')
      then r :: rs
      else r' :: insert_by_level r rest
  end.

Definition sampleOdm : RoleAdmin.Odm :=
  RoleAdmin.mkOdm
    (fun moduleId description =>
       RoleService.mkPermission (trim moduleId) (trim description))
    (fun _ => None) (fun _ => None) None
    (fold_right insert_by_level []).

(** The first module of [sampleModules], a collection in which the role
    [user] is granted [system_info] only, and a user of that role. *)
Definition systemInfoModule : TaskService.Module :=
  TaskService.mkModule (js "system_info") (js "system-info.sh")
    [formatDef] true.

Definition scenarioDb : RoleService.RoleDb :=
  RoleService.mkRoleDb
    [ RoleService.mkRole (js "admin") (js "Administrator with full access") 0
        [ RoleService.mkPermission (js "user_list")
            (js "List all system users") ];
      RoleService.mkRole (js "user") (js "Standard user") 10
        [ RoleService.mkPermission (js "system_info")
            (js "System information") ] ]
    (fun _ => None).

Definition sampleUser : ModuleRoutes.User :=
  ModuleRoutes.mkUser (VString (js "u1")) (js "alice") (js "user").

End Sample.

(* ================================================================== *)
(** * Vocabulary of the properties *)
(* ================================================================== *)

Module Vocabulary.
Import InputValidation.

(** [needle] occurs in [hay] as a contiguous run. *)
Fixpoint starts_with (needle hay : jsstring) : bool :=
  match needle, hay with
  | [], _ => true
  | x :: n', y :: h' => N.eqb x y && starts_with n' h'
  | _ :: _, [] => false
  end.

Fixpoint contains (needle hay : jsstring) : bool :=
  starts_with needle hay
  || match hay with
     | [] => false
     | _ :: h' => contains needle h'
     end.

(** No code unit of the string is one of the stripped control characters. *)
Definition control_free (s : jsstring) : bool :=
  forallb (fun c => negb (isControlChar c)) s.

(** The string neither starts nor ends with white space. *)
Definition starts_ws (s : jsstring) : bool :=
  match s with
  | c :: _ => isWhiteSpace c
  | [] => false
  end.

Definition trimmed (s : jsstring) : bool :=
  negb (starts_ws s) && negb (starts_ws (rev s)).

(** The string holds a carriage return directly followed by a line feed. *)
Definition has_crlf (s : jsstring) : bool := contains [13%N; 10%N] s.

(** No carriage return is left in the string. *)
Definition cr_free (s : jsstring) : bool :=
  forallb (fun c => negb (N.eqb c 13)) s.

(** Every carriage return of the string is directly followed by a line
    feed: the string uses LF and CR LF line endings only. *)
Fixpoint cr_paired (s : jsstring) : bool :=
  match s with
  | [] => true
  | c :: t =>
      if N.eqb c 13
      then match t with
           | d :: _ => N.eqb d 10 && cr_paired t
           | [] => false
           end
      else cr_paired t
  end.


Section WithRuntime.
Context {rt : JSRuntime}.

(** The arguments one entry of a validated mapping stands for: nothing for
    [null], [undefined] and [false], the bare flag for [true], one
    [--name=element] per element of a list, [--name=value] otherwise. *)
Definition flag_args (key : jsstring) (value : val) : list jsstring :=
  match value with
  | VUndefined | VNull => []
  | VBool true => [js "--" ++ key]
  | VBool false => []
  | VArray items =>
      map (fun item => js "--" ++ key ++ js "=" ++ ToString item) items
  | _ => [js "--" ++ key ++ js "=" ++ ToString value]
  end.

(** What one definition contributes to the run, whatever the accumulators
    hold: nothing, an entry of the output, a message, or an exception. *)
Inductive Verdict : Type :=
| Skip
| Put (v : val)
| Err (msg : jsstring)
| Abort (e : JSError).

(** The pattern check on a coerced value. *)
Definition pattern_verdict (def : ParameterDefinition) (v : val) : Verdict :=
  match (if is_TString (type def) && truthy v
         then pattern_of def else None) with
  | Some p =>
      match RegExp_new p with
      | inl msg => Abort (Error msg)
      | inr regexp =>
          if RegExp_test regexp (ToString v) then Put v
          else Err (pattern_message def)
      end
  | None => Put v
  end.

Definition verdict (params : JSObject) (def : ParameterDefinition)
    : Verdict :=
  let value := obj_get params (name def) in
  if nullish value then
    if required def
    then Err (js "Missing required parameter: " ++ name def)
    else if is_undefined (defaultValue def) then Skip
    else Put (defaultValue def)
  else
    match validateParameterType (name def) value (type def) with
    | TError error => Err error
    | TValue v => pattern_verdict def v
    end.

Definition apply_verdict (st : vstate) (key : jsstring) (x : Verdict)
    : outcome vstate :=
  match x with
  | Skip => Ok st
  | Put v => Ok (obj_set (fst st) key v, snd st)
  | Err msg => Ok (fst st, snd st ++ [msg])
  | Abort e => Throw e
  end.

(** [validated[key] = value] for each entry of a list, in order. *)
Definition set_all (o : JSObject) (entries : JSObject) : JSObject :=
  fold_left (fun o kv => obj_set o (fst kv) (snd kv)) entries o.

(** The entries that become own properties when they are assigned. *)
Definition own_entries (entries : JSObject) : JSObject :=
  filter (fun kv => negb (eqb_js (fst kv) (js "__proto__"))) entries.

(** The entries the definitions contribute, in the order of the
    definitions. *)
Definition puts (params : JSObject) (defs : list ParameterDefinition)
    : JSObject :=
  flat_map (fun def => match verdict params def with
                       | Put v => [(name def, v)]
                       | _ => []
                       end) defs.

(** The problem a definition has with a raw mapping, as its message: a
    required parameter that is missing; a supplied value that cannot be
    coerced to the declared type; a text value, not empty once sanitized,
    that fails the validation pattern. *)
Definition problem (params : JSObject) (def : ParameterDefinition)
    : option jsstring :=
  let value := obj_get params (name def) in
  if nullish value then
    if required def
    then Some (js "Missing required parameter: " ++ name def)
    else None
  else
    match validateParameterType (name def) value (type def) with
    | TError error => Some error
    | TValue v =>
        match type def, v, pattern_of def with
        | TString, VString ((_ :: _) as text), Some p =>
            match RegExp_new p with
            | inr regexp =>
                if RegExp_test regexp text then None
                else Some (pattern_message def)
            | inl _ => None
            end
        | _, _, _ => None
        end
    end.

Definition problems (params : JSObject) (defs : list ParameterDefinition)
    : list jsstring :=
  flat_map (fun def => match problem params def with
                       | Some msg => [msg]
                       | None => []
                       end) defs.

(** Every validation pattern of the schema is a regular expression the
    engine accepts. *)
Definition patterns_compile (defs : list ParameterDefinition) : Prop :=
  forall def p, In def defs -> pattern_of def = Some p ->
                exists regexp, RegExp_new p = inr regexp.

(** The value passes the pattern check of the definition (which only
    non-empty text values of text parameters with a pattern undergo). *)
Definition passes_pattern (def : ParameterDefinition) (v : val) : Prop :=
  match (if is_TString (type def) && truthy v
         then pattern_of def else None) with
  | Some p =>
      exists regexp, RegExp_new p = inr regexp
                     /\ RegExp_test regexp (ToString v) = true
  | None => True
  end.

(** The entry of [V] for the definition, when it is not [null], is returned
    unchanged by the coercion to the declared type and, if it is a default
    that was substituted for a missing value of [params], passes the
    pattern check. *)
Definition entry_stable (params V : JSObject) (def : ParameterDefinition)
    : Prop :=
  let w := obj_get V (name def) in
  nullish w = false ->
  validateParameterType (name def) w (type def) = TValue w
  /\ (nullish (obj_get params (name def)) = true -> passes_pattern def w).

End WithRuntime.
End Vocabulary.

(** ** Vocabulary of the further properties *)

Module Shapes.
Import InputValidation.
Section WithRuntime.
Context {rt : JSRuntime}.

(** The value is of the declared type: a string, a number that is not NaN,
    a boolean, an array. *)
Definition has_type (t : ParamType) (v : val) : bool :=
  match t, v with
  | TString, VString _ => true
  | TNumber, VNumber n => negb (Number_isNaN n)
  | TBoolean, VBool _ => true
  | TArray, VArray _ => true
  | _, _ => false
  end.

(** A text as sanitizing leaves it and keeps it: without stripped control
    character, without white space at either end, without CR LF pair. *)
Definition clean_text (s : jsstring) : bool :=
  Vocabulary.control_free s && Vocabulary.trimmed s
  && negb (Vocabulary.has_crlf s).

(** Every text the value holds, itself or as an element of a list, is
    clean. *)
Definition clean_value (v : val) : bool :=
  match v with
  | VString s => clean_text s
  | VArray items =>
      forallb (fun item => match item with
                           | VString s => clean_text s
                           | _ => true
                           end) items
  | _ => true
  end.

(** The default of the definition cannot be stored for lack of a value
    (the definition is required, or the default is [null] or [undefined]),
    or it is of the declared type and passes the pattern check of the
    definition. *)
Definition sound_default (def : ParameterDefinition) : Prop :=
  required def = true
  \/ nullish (defaultValue def) = true
  \/ (has_type (type def) (defaultValue def) = true
      /\ Vocabulary.passes_pattern def (defaultValue def)).

(** Lower-casing leaves a string of lower-case letters, digits and
    underscores as it is. *)
Definition lowercase_keeps_ids : Prop :=
  forall s, forallb isModuleIdChar s = true -> String_toLowerCase s = s.

(** The names under which an object has properties. *)
Definition keys (o : JSObject) : list jsstring := map fst o.

(** How often a code unit occurs in a string. *)
Definition occurrences (c : N) (s : jsstring) : nat :=
  List.length (filter (N.eqb c) s).

End WithRuntime.
End Shapes.

(* ================================================================== *)
(** * Facts about strings and objects *)
(* ================================================================== *)

Section StringFacts.

Lemma eqb_js_eq (a b : jsstring) : eqb_js a b = true <-> a = b.
Proof.
  revert b; induction a as [|x a IH]; intros [|y b]; simpl;
    try (split; [discriminate | discriminate]); try tauto.
  rewrite andb_true_iff, N.eqb_eq, IH.
  split; [intros [-> ->]; reflexivity | intros H; inversion H; auto].
Qed.

Lemma eqb_js_refl (a : jsstring) : eqb_js a a = true.
Proof. apply eqb_js_eq; reflexivity. Qed.

Lemma eqb_js_neq (a b : jsstring) : eqb_js a b = false <-> a <> b.
Proof.
  rewrite <- eqb_js_eq. destruct (eqb_js a b); split; congruence.
Qed.

(** [trimStart] drops a prefix, [trimEnd] a suffix. *)
Lemma trimStart_suffix (s : jsstring) :
  exists ws, s = ws ++ trimStart s.
Proof.
  induction s as [|c t [ws IH]]; simpl.
  - exists []; reflexivity.
  - destruct (isWhiteSpace c).
    + exists (c :: ws); simpl; f_equal; exact IH.
    + exists []; reflexivity.
Qed.

Lemma trimEnd_prefix (s : jsstring) :
  exists ws, s = trimEnd s ++ ws.
Proof.
  unfold trimEnd.
  destruct (trimStart_suffix (rev s)) as [ws H].
  exists (rev ws).
  rewrite <- rev_app_distr, <- H, rev_involutive; reflexivity.
Qed.

Lemma starts_ws_trimStart (s : jsstring) :
  Vocabulary.starts_ws (trimStart s) = false.
Proof.
  induction s as [|c t IH]; simpl; [reflexivity|].
  destruct (isWhiteSpace c) eqn:E; [exact IH | simpl; exact E].
Qed.

Lemma trim_trimmed (s : jsstring) : Vocabulary.trimmed (trim s) = true.
Proof.
  unfold Vocabulary.trimmed, trim.
  apply andb_true_iff; split; apply negb_true_iff.
  - destruct (trimEnd_prefix (trimStart s)) as [ws H].
    pose proof (starts_ws_trimStart s) as Hs.
    rewrite H in Hs.
    destruct (trimEnd (trimStart s)); [reflexivity | exact Hs].
  - unfold trimEnd. rewrite rev_involutive. apply starts_ws_trimStart.
Qed.

(** A property of every code unit survives trimming. *)
Lemma forallb_trim (p : N -> bool) (s : jsstring) :
  forallb p s = true -> forallb p (trim s) = true.
Proof.
  intros H. unfold trim.
  destruct (trimStart_suffix s) as [ws1 H1].
  destruct (trimEnd_prefix (trimStart s)) as [ws2 H2].
  rewrite H1, H2, !forallb_app in H.
  apply andb_true_iff in H as [_ H].
  apply andb_true_iff in H as [H _]. exact H.
Qed.

End StringFacts.

(* ================================================================== *)
(** * Text parameters: [sanitizeString] and the [string] case *)
(* ================================================================== *)

Section TextFacts.
Context {rt : JSRuntime}.
Import InputValidation Vocabulary.

(** Induction that follows the two-step recursion of [replace_crlf]. *)
Lemma jsstring_pair_ind (P : jsstring -> Prop) :
  P [] ->
  (forall c, P [c]) ->
  (forall c d t, P t -> P (d :: t) -> P (c :: d :: t)) ->
  forall s, P s.
Proof.
  intros H0 H1 H2 s.
  assert (H : P s /\ forall c, P (c :: s)); [|exact (proj1 H)].
  induction s as [|d t [IHt IHdt]]; split; auto.
Qed.

Lemma strip_control_free (s : jsstring) :
  control_free (strip_control s) = true.
Proof.
  unfold control_free, strip_control.
  apply forallb_forall. intros c Hc.
  apply filter_In in Hc. exact (proj2 Hc).
Qed.

Lemma replace_crlf_control_free (s : jsstring) :
  control_free s = true -> control_free (replace_crlf s) = true.
Proof.
  unfold control_free.
  induction s as [| c | c d t IHt IHdt] using jsstring_pair_ind; intros H.
  - reflexivity.
  - exact H.
  - change (replace_crlf (c :: d :: t))
      with (if N.eqb c 13 && N.eqb d 10 then 10%N :: replace_crlf t
            else c :: replace_crlf (d :: t)).
    simpl in H. apply andb_true_iff in H as [Hc H].
    destruct (N.eqb c 13 && N.eqb d 10).
    + simpl. apply IHt. apply andb_true_iff in H as [_ H]. exact H.
    + simpl forallb at 1. rewrite Hc. simpl. apply IHdt. exact H.
Qed.

Lemma replace_crlf_cr_free (s : jsstring) :
  cr_paired s = true -> cr_free (replace_crlf s) = true.
Proof.
  unfold cr_free.
  induction s as [| c | c d t IHt IHdt] using jsstring_pair_ind; intros H.
  - reflexivity.
  - simpl in *. destruct (N.eqb c 13); [discriminate | reflexivity].
  - change (replace_crlf (c :: d :: t))
      with (if N.eqb c 13 && N.eqb d 10 then 10%N :: replace_crlf t
            else c :: replace_crlf (d :: t)).
    change (cr_paired (c :: d :: t))
      with (if N.eqb c 13 then N.eqb d 10 && cr_paired (d :: t)
            else cr_paired (d :: t)) in H.
    destruct (N.eqb c 13) eqn:Ec.
    + apply andb_true_iff in H as [Ed H]. rewrite Ed. simpl andb.
      apply N.eqb_eq in Ed; subst d.
      simpl in H. simpl. apply IHt. exact H.
    + simpl andb. simpl forallb at 1. rewrite Ec. simpl. apply IHdt. exact H.
Qed.

(** The sanitized text has no stripped control character and no white space
    at either end; when the control-stripped input pairs every carriage
    return with a line feed, no carriage return is left. *)
Lemma sanitizeString_properties (s : jsstring) :
  let w := sanitizeString (VString s) in
  control_free w = true
  /\ trimmed w = true
  /\ (cr_paired (strip_control s) = true -> cr_free w = true).
Proof.
  cbv zeta. unfold sanitizeString. repeat split.
  - apply forallb_trim, replace_crlf_control_free, strip_control_free.
  - apply trim_trimmed.
  - intros H. apply forallb_trim, replace_crlf_cr_free, H.
Qed.

(** C8 (as amended).  Type validation of a text parameter rejects every
    value that is not a string and, for a string, returns the text with the
    control characters 0x00-0x08, 0x0B, 0x0C, 0x0E-0x1F and 0x7F removed,
    then every CR LF pair found in one left-to-right scan replaced by one
    line feed, then trimmed: the result holds none of those control
    characters, has no white space at either end, and holds no carriage
    return whenever every carriage return of the control-stripped input is
    directly followed by a line feed. *)
Theorem validate_text_sanitized (name : jsstring) (value : val) :
  match value with
  | VString s =>
      exists w,
        validateParameterType name value TString = TValue (VString w)
        /\ w = trim (replace_crlf (strip_control s))
        /\ control_free w = true
        /\ trimmed w = true
        /\ (cr_paired (strip_control s) = true -> cr_free w = true)
  | _ =>
      validateParameterType name value TString
      = TError (js "Parameter " ++ name ++ js " must be a string")
  end.
Proof.
  destruct value as [| | b | n | s | items | props | fname]; try reflexivity.
  exists (sanitizeString (VString s)).
  split; [reflexivity|]. split; [reflexivity|].
  exact (sanitizeString_properties s).
Qed.

End TextFacts.

(** C8 (as stated) fails: the text [a CR CR LF b] is validated to
    [a CR LF b], so a CR LF line ending is left in the output. *)
Lemma validate_text_keeps_crlf :
  @InputValidation.validateParameterType Sample.asciiRuntime (js "note")
    (VString [97; 13; 13; 10; 98]%N) InputValidation.TString
  = InputValidation.TValue (VString [97; 13; 10; 98]%N)
  /\ Vocabulary.has_crlf [97; 13; 10; 98]%N = true.
Proof. split; reflexivity. Qed.

(** The amended statement at a text with Windows line endings. *)
Lemma validate_text_sanitized_witness :
  exists w,
    @InputValidation.validateParameterType Sample.asciiRuntime (js "note")
      (VString ([32; 7]%N ++ js "one" ++ [13; 10]%N ++ js "two" ++ [9]%N))
      InputValidation.TString
    = InputValidation.TValue (VString w)
    /\ w = js "one" ++ [10%N] ++ js "two"
    /\ Vocabulary.cr_free w = true.
Proof.
  destruct (@validate_text_sanitized Sample.asciiRuntime (js "note")
              (VString ([32; 7]%N ++ js "one" ++ [13; 10]%N ++ js "two"
                          ++ [9]%N)))
    as (w & Hv & Hw & _ & _ & Hcr).
  exists w. split; [exact Hv|]. split; [rewrite Hw; reflexivity|].
  apply Hcr. reflexivity.
Defined.

(* ================================================================== *)
(** * Argument construction: [paramsToArgs] *)
(* ================================================================== *)

Section ArgumentFacts.
Context {rt : JSRuntime}.
Import TaskService Vocabulary.

Lemma push_each (A : Type) (f : A -> jsstring) (items : list A)
    (args : list jsstring) :
  fold_left (fun args item => args ++ [f item]) items args
  = args ++ map f items.
Proof.
  revert args; induction items as [|x items IH]; intros args; simpl.
  - rewrite app_nil_r; reflexivity.
  - rewrite IH, <- app_assoc; reflexivity.
Qed.

Lemma paramsToArgs_step (key : jsstring) (value : val)
    (args : list jsstring) :
  (if nullish value then args
   else
     match value with
     | VBool b => if b then args ++ [js "--" ++ key] else args
     | VArray items =>
         fold_left
           (fun args item =>
              args ++ [js "--" ++ key ++ js "=" ++ ToString item])
           items args
     | _ => args ++ [js "--" ++ key ++ js "=" ++ ToString value]
     end)
  = args ++ flag_args key value.
Proof.
  destruct value as [| | [|] | n | s | items | props | fname]; simpl;
    rewrite ?app_nil_r; try reflexivity.
  apply push_each.
Qed.

Lemma paramsToArgs_fold (entries : list (jsstring * val))
    (args : list jsstring) :
  fold_left
    (fun args entry =>
       let '(key, value) := entry in
       if nullish value then args
       else
         match value with
         | VBool b => if b then args ++ [js "--" ++ key] else args
         | VArray items =>
             fold_left
               (fun args item =>
                  args ++ [js "--" ++ key ++ js "=" ++ ToString item])
               items args
         | _ => args ++ [js "--" ++ key ++ js "=" ++ ToString value]
         end)
    entries args
  = args ++ flat_map (fun entry => flag_args (fst entry) (snd entry)) entries.
Proof.
  revert args; induction entries as [|[key value] entries IH]; intros args.
  - simpl. rewrite app_nil_r; reflexivity.
  - cbn [fold_left flat_map fst snd].
    rewrite paramsToArgs_step, IH, <- app_assoc; reflexivity.
Qed.

(** [Object.entries]: what it lists first, and in which order. *)
Lemma insert_indexed_perm (i : N) (e : jsstring * val)
    (l : list (N * (jsstring * val))) :
  Permutation (insert_indexed i e l) ((i, e) :: l).
Proof.
  induction l as [|[j e'] l IH]; simpl; [reflexivity|].
  destruct (N.leb i j); [reflexivity|].
  rewrite IH. apply perm_swap.
Qed.

Lemma indexed_entries_perm (o : JSObject) :
  Permutation (map snd (indexed_entries o))
    (filter (fun e => is_array_index (fst e)) o).
Proof.
  induction o as [|e o IH]; simpl; [reflexivity|].
  unfold is_array_index. destruct (array_index (fst e)) as [i|]; [|exact IH].
  rewrite (Permutation_map snd (insert_indexed_perm i e (indexed_entries o))).
  simpl. apply perm_skip. exact IH.
Qed.





Lemma filter_partition_perm (A : Type) (p : A -> bool) (l : list A) :
  Permutation (filter p l ++ filter (fun x => negb (p x)) l) l.
Proof.
  induction l as [|x l IH]; simpl; [reflexivity|].
  destruct (p x); simpl.
  - apply perm_skip, IH.
  - apply Permutation_sym, Permutation_cons_app, Permutation_sym, IH.
Qed.

Lemma Object_entries_perm (o : JSObject) :
  Permutation (Object_entries o) o.
Proof.
  unfold Object_entries.
  rewrite indexed_entries_perm. apply filter_partition_perm.
Qed.



End ArgumentFacts.



(* ================================================================== *)
(** * Path resolution and execution results *)
(* ================================================================== *)

Section TaskFacts.
Context {rt : JSRuntime}.
Import InputValidation TaskService Vocabulary.

Lemma filter_fixed_forallb (p : N -> bool) (s : jsstring) :
  filter p s = s -> forallb p s = true.
Proof.
  intros H. apply forallb_forall. intros c Hc.
  rewrite <- H in Hc. apply filter_In in Hc. exact (proj2 Hc).
Qed.

Lemma starts_with_incl (needle hay : jsstring) :
  starts_with needle hay = true -> incl needle hay.
Proof.
  revert hay; induction needle as [|x n IH]; intros hay H.
  - intros c [].
  - destruct hay as [|y h]; [discriminate|].
    simpl in H. apply andb_true_iff in H as [Hxy H].
    apply N.eqb_eq in Hxy; subst y.
    intros c [<-|Hc]; [left; reflexivity | right; exact (IH h H c Hc)].
Qed.

Lemma contains_incl (needle hay : jsstring) :
  contains needle hay = true -> incl needle hay.
Proof.
  induction hay as [|y h IH]; intros H.
  - simpl in H. rewrite orb_false_r in H. exact (starts_with_incl _ _ H).
  - simpl in H. apply orb_true_iff in H as [H|H].
    + apply starts_with_incl. exact H.
    + intros c Hc. right. exact (IH H c Hc).
Qed.

(** A name with [../] in it is changed by the stripping of
    [getScriptPath]. *)
Lemma traversal_is_stripped (scriptName : jsstring) :
  contains (js "../") scriptName = true ->
  filter isScriptNameChar scriptName <> scriptName.
Proof.
  intros H Hfix.
  apply contains_incl in H.
  assert (Hslash : In 47%N scriptName)
    by (apply H; right; right; left; reflexivity).
  apply filter_fixed_forallb in Hfix.
  rewrite forallb_forall in Hfix.
  specialize (Hfix _ Hslash). discriminate.
Qed.

Lemma getScriptPath_stripped (w : World) (scriptName : jsstring) :
  filter isScriptNameChar scriptName <> scriptName ->
  getScriptPath w scriptName = None.
Proof.
  intros H. unfold getScriptPath.
  apply eqb_js_neq in H. rewrite H. reflexivity.
Qed.

(** C1.  When the executable name of the module differs from its form
    stripped of every character outside [A-Za-z0-9_.-], and in particular
    when it contains [../], [getScriptPath] returns no path and
    [executeScript] creates no process and delivers a failure result. *)
Theorem executeScript_rejects_stripped_name (w : World) (moduleId : val)
    (parameters : option JSObject) (userId : val) (module : Module) :
  getModuleById w moduleId = Ok module ->
  filter isScriptNameChar (scriptName module) <> scriptName module
  \/ contains (js "../") (scriptName module) = true ->
  getScriptPath w (scriptName module) = None
  /\ executeScript w moduleId parameters userId
     = ([], Ok [(js "success", VBool false);
                (js "moduleId", moduleId);
                (js "error",
                 VString (js "Script not found: " ++ scriptName module));
                (js "stderr", VNull)]).
Proof.
  intros Hmod Hname.
  assert (Hpath : getScriptPath w (scriptName module) = None).
  { apply getScriptPath_stripped.
    destruct Hname as [H|H]; [exact H | apply traversal_is_stripped; exact H]. }
  split; [exact Hpath|].
  unfold executeScript. rewrite Hmod. simpl. rewrite Hpath. reflexivity.
Qed.

(** Whatever the world, a failure result of [executeScript] has no
    [executionTime] property. *)
Lemma failure_result_has_no_time (w : World) (moduleId : val)
    (parameters : option JSObject) (userId : val) (t : list Event)
    (r : JSObject) :
  executeScript w moduleId parameters userId = (t, Ok r) ->
  obj_get r (js "success") = VBool false ->
  obj_has r (js "executionTime") = false.
Proof.
  unfold executeScript, eff_catch, eff_bind, pure_eff.
  destruct (getModuleById w moduleId) as [module|e]; simpl.
  2:{ intros H _. inversion H; subst. reflexivity. }
  destruct (getScriptPath w (scriptName module)) as [scriptPath|]; simpl.
  2:{ intros H _. inversion H; subst. reflexivity. }
  destruct (validateParameters parameters (parameterDefinitions module))
    as [validatedParams|e]; simpl.
  2:{ intros H _. inversion H; subst. reflexivity. }
  unfold executeScriptWithTimeout, eff_catch, eff_bind, pure_eff.
  destruct (execFile w scriptPath (paramsToArgs validatedParams));
    simpl; intros H Hs; inversion H; subst; try reflexivity.
  simpl in Hs. discriminate.
Qed.

End TaskFacts.

(** C1 at the module [backup], whose executable name is
    [../../etc/passwd]: the file exists, and yet nothing is run. *)
Lemma executeScript_rejects_stripped_name_witness :
  TaskService.getScriptPath Sample.sampleWorld (js "../../etc/passwd") = None
  /\ TaskService.executeScript Sample.sampleWorld (VString (js "backup"))
       None (VString (js "u1"))
     = ([], Ok [(js "success", VBool false);
                (js "moduleId", VString (js "backup"));
                (js "error",
                 VString (js "Script not found: ../../etc/passwd"));
                (js "stderr", VNull)]).
Proof.
  exact (@executeScript_rejects_stripped_name Sample.asciiRuntime
           Sample.sampleWorld (VString (js "backup")) None (VString (js "u1"))
           (TaskService.mkModule (js "backup") (js "../../etc/passwd") [] true)
           eq_refl (or_intror eq_refl)).
Defined.

(** C6 at its failing inputs.  The script of module [broken] exits with a
    non-zero status 250 ms after it was started: [executeScriptWithTimeout]
    throws an error that carries the elapsed time, and the result
    [executeScript] delivers has no [executionTime] property.  The same
    happens when the timer fires first. *)
Lemma executeScript_failure_drops_time :
  (exists t e,
     TaskService.executeScriptWithTimeout Sample.sampleWorld
       (js "/app/scripts/broken.sh") [] (Some 30000%Z) (VString (js "u1"))
     = (t, Throw e)
     /\ executionTime e = VNumber (Some 250%Z))
  /\ (exists t r,
        TaskService.executeScript Sample.sampleWorld (VString (js "broken"))
          None (VString (js "u1")) = (t, Ok r)
        /\ t <> []
        /\ obj_get r (js "success") = VBool false
        /\ obj_has r (js "executionTime") = false)
  /\ (exists t r,
        TaskService.executeScript Sample.slowWorld
          (VString (js "system_info")) None (VString (js "u1")) = (t, Ok r)
        /\ t <> []
        /\ obj_get r (js "error")
           = VString (js "Script execution timed out after 100ms")
        /\ obj_has r (js "executionTime") = false).
Proof.
  split; [|split].
  - eexists; eexists; split; [reflexivity | reflexivity].
  - eexists; eexists; split; [reflexivity|].
    split; [discriminate|]. split; reflexivity.
  - eexists; eexists; split; [reflexivity|].
    split; [discriminate|]. split; reflexivity.
Qed.

(* ================================================================== *)
(** * Permission resolution *)
(* ================================================================== *)

Section RoleFacts.
Context {rt : JSRuntime}.
Import RoleService.

Lemma includes_In (x : jsstring) (s : list jsstring) :
  existsb (eqb_js x) s = true <-> In x s.
Proof.
  rewrite existsb_exists. split.
  - intros (y & Hy & E). apply eqb_js_eq in E; subst; exact Hy.
  - intros H. exists x. split; [exact H | apply eqb_js_refl].
Qed.

Lemma Set_add_In (s : list jsstring) (x m : jsstring) :
  In m (Set_add s x) <-> In m s \/ m = x.
Proof.
  unfold Set_add. destruct (existsb (eqb_js x) s) eqn:E.
  - apply includes_In in E. split; [tauto | intros [H| ->]; assumption].
  - rewrite in_app_iff. simpl. split; intros [H|H]; auto.
    + destruct H as [H|[]]; auto.
Qed.

Lemma Set_add_NoDup (s : list jsstring) (x : jsstring) :
  NoDup s -> NoDup (Set_add s x).
Proof.
  intros H. unfold Set_add. destruct (existsb (eqb_js x) s) eqn:E; [exact H|].
  apply NoDup_rev in H. rewrite <- (rev_involutive (s ++ [x])).
  apply NoDup_rev. rewrite rev_app_distr. simpl. constructor; [|exact H].
  rewrite <- in_rev. intros Hin. apply includes_In in Hin. congruence.
Qed.

(** The inner loop: the permissions of one role. *)
Lemma add_permissions_spec (perms : list Permission) (s : list jsstring) :
  let s' := fold_left (fun modules permission =>
                         Set_add modules (moduleId permission)) perms s in
  (NoDup s -> NoDup s')
  /\ forall m, In m s' <-> In m s \/ exists p, In p perms /\ moduleId p = m.
Proof.
  revert s; induction perms as [|p perms IH]; intros s; cbn zeta; simpl.
  - split; [auto|]. intros m; split; [auto|].
    intros [H|(p & [] & _)]; exact H.
  - destruct (IH (Set_add s (moduleId p))) as [IHn IHi]. split.
    + intros H. apply IHn, Set_add_NoDup, H.
    + intros m. rewrite IHi, Set_add_In. split.
      * intros [[H|H]|(q & Hq & E)]; eauto.
      * intros [H|(q & [<-|Hq] & E)]; eauto.
Qed.

(** The outer loop: every role of the selection. *)
Lemma add_roles_spec (rs : list Role) (s : list jsstring) :
  let s' := fold_left
              (fun modules role =>
                 fold_left (fun modules permission =>
                              Set_add modules (moduleId permission))
                   (permissions role) modules) rs s in
  (NoDup s -> NoDup s')
  /\ forall m, In m s' <->
       In m s \/ exists r p, In r rs /\ In p (permissions r)
                             /\ moduleId p = m.
Proof.
  revert s; induction rs as [|r rs IH]; intros s; cbn zeta; simpl.
  - split; [auto|]. intros m; split; [auto|].
    intros [H|(r & p & [] & _)]; exact H.
  - destruct (add_permissions_spec (permissions r) s) as [Pn Pi].
    cbn zeta in Pn, Pi.
    destruct (IH (fold_left (fun modules permission =>
                               Set_add modules (moduleId permission))
                    (permissions r) s)) as [IHn IHi]. split.
    + intros H. apply IHn, Pn, H.
    + intros m. rewrite IHi, Pi. split.
      * intros [[H|(p & Hp & E)]|(r' & p & Hr & Hp & E)]; eauto 8.
      * intros [H|(r' & p & [<-|Hr] & Hp & E)]; eauto 8.
Qed.

(** What [getAccessibleModules] returns for a role that exists, when the
    store answers. *)
Lemma getAccessibleModules_found (db : RoleDb) (roleName : jsstring)
    (role : Role) :
  (forall q, fault db q = None) ->
  find (fun r => eqb_js (name r) (trim roleName)) (roles db) = Some role ->
  exists modules,
    getAccessibleModules db roleName = Ok modules
    /\ NoDup modules
    /\ forall m, In m modules <->
         exists r p, In r (roles db) /\ (level role <= level r)%Z
                     /\ In p (permissions r) /\ moduleId p = m.
Proof.
  intros Hfault Hfind.
  unfold getAccessibleModules, getRoleByName, Role_findOne,
    Role_find_level_gte.
  rewrite !Hfault, Hfind. simpl. rewrite Hfault. simpl.
  eexists. split; [reflexivity|].
  destruct (add_roles_spec
              (filter (fun r => Z.geb (level r) (level role)) (roles db)) [])
    as [Hn Hi]. cbn zeta in Hn, Hi.
  split; [apply Hn; constructor|].
  intros m. rewrite Hi. split.
  - intros [[]|(r & p & Hr & Hp & E)].
    apply filter_In in Hr as [Hr Hl]. apply Z.geb_le in Hl. eauto 8.
  - intros (r & p & Hr & Hl & Hp & E). right. exists r, p.
    split; [|auto]. apply filter_In. split; [exact Hr|].
    apply Z.geb_le. exact Hl.
Qed.

(** C2.  For a role that exists (the store holds a role under the name,
    which it looks up trimmed), [getAccessibleModules] returns, without
    repetition, exactly the module identifiers granted to the roles whose
    level is greater than or equal to the level of that role; the result
    contains the role's own grants, and it contains the result for every
    role of strictly greater level. *)
Theorem accessible_modules_union (db : RoleDb) (roleName : jsstring)
    (role : Role) :
  (forall q, fault db q = None) ->
  find (fun r => eqb_js (name r) (trim roleName)) (roles db) = Some role ->
  exists modules,
    getAccessibleModules db roleName = Ok modules
    /\ NoDup modules
    /\ (forall m, In m modules <->
          exists r p, In r (roles db) /\ (level role <= level r)%Z
                      /\ In p (permissions r) /\ moduleId p = m)
    /\ (forall p, In p (permissions role) -> In (moduleId p) modules)
    /\ (forall roleName2 role2,
          find (fun r => eqb_js (name r) (trim roleName2)) (roles db)
          = Some role2 ->
          (level role < level role2)%Z ->
          exists modules2,
            getAccessibleModules db roleName2 = Ok modules2
            /\ incl modules2 modules).
Proof.
  intros Hfault Hfind.
  destruct (getAccessibleModules_found db roleName Hfault Hfind)
    as (modules & Hget & Hnd & Hin).
  exists modules. repeat split; try assumption; try (apply Hin).
  - intros p Hp. apply Hin. exists role, p.
    apply find_some in Hfind as [Hr _].
    repeat split; auto. apply Z.le_refl.
  - intros roleName2 role2 Hfind2 Hlt.
    destruct (getAccessibleModules_found db roleName2 Hfault Hfind2)
      as (modules2 & Hget2 & _ & Hin2).
    exists modules2. split; [exact Hget2|].
    intros m Hm. apply Hin. apply Hin2 in Hm.
    destruct Hm as (r & p & Hr & Hl & Hp & E).
    exists r, p. repeat split; auto. lia.
Qed.

(** C3.  [hasModuleAccess] never throws; it answers [true] exactly when the
    module identifier is among the accessible modules; for a role that does
    not exist the accessible modules are the empty list and the answer is
    [false]; and when the resolution throws, the answer is [false]. *)
Theorem hasModuleAccess_fails_closed (db : RoleDb)
    (roleName moduleId : jsstring) :
  (exists b, hasModuleAccess db roleName moduleId = Ok b)
  /\ (forall modules,
        getAccessibleModules db roleName = Ok modules ->
        (hasModuleAccess db roleName moduleId = Ok true
         <-> In moduleId modules))
  /\ (Role_findOne db roleName = Ok None ->
      getAccessibleModules db roleName = Ok []
      /\ hasModuleAccess db roleName moduleId = Ok false)
  /\ (forall e,
        getAccessibleModules db roleName = Throw e ->
        hasModuleAccess db roleName moduleId = Ok false).
Proof.
  unfold hasModuleAccess. repeat split.
  - destruct (getAccessibleModules db roleName); simpl; eauto.
  - rewrite H. simpl. intros E. inversion E as [E']. apply includes_In, E'.
  - rewrite H. simpl. intros Hin. apply includes_In in Hin. rewrite Hin.
    reflexivity.
  - unfold getAccessibleModules, getRoleByName. rewrite H. reflexivity.
  - unfold getAccessibleModules, getRoleByName. rewrite H. reflexivity.
  - intros e H. rewrite H. reflexivity.
Qed.

End RoleFacts.

(** C2 at the default roles: [manager] reaches its own grant and the grant
    of [user], and [admin] reaches everything [manager] does. *)
Lemma accessible_modules_union_witness :
  exists modules,
    RoleService.getAccessibleModules Sample.sampleDb (js "manager")
    = Ok modules
    /\ modules = [js "reports"; js "dashboard"]
    /\ In (js "reports") modules.
Proof.
  destruct (@accessible_modules_union Sample.asciiRuntime Sample.sampleDb
              (js "manager")
              (RoleService.mkRole (js "manager")
                 (js "Manager with elevated privileges") 5
                 [RoleService.mkPermission (js "reports")
                    (js "Access to reports")])
              (fun _ => eq_refl) eq_refl)
    as (modules & Hget & _ & _ & Hown & _).
  exists modules. split; [exact Hget|]. split.
  - vm_compute in Hget. inversion Hget. reflexivity.
  - apply (Hown (RoleService.mkPermission (js "reports")
                   (js "Access to reports"))).
    left; reflexivity.
Defined.

(* ================================================================== *)
(** * Parameter validation *)
(* ================================================================== *)

Section ValidationFacts.
Context {rt : JSRuntime}.
Import InputValidation Vocabulary.

(** One step of the loop applies the verdict of its definition. *)
Lemma validate_def_verdict (params : JSObject) (st : vstate)
    (def : ParameterDefinition) :
  validate_def params st def
  = apply_verdict st (name def) (verdict params def).
Proof.
  destruct st as [validated errors].
  unfold validate_def, verdict, pattern_verdict, apply_verdict.
  destruct (nullish (obj_get params (name def))); simpl.
  - rewrite andb_true_r.
    destruct (required def); simpl; [reflexivity|].
    destruct (is_undefined (defaultValue def)); reflexivity.
  - rewrite andb_false_r.
    destruct (validateParameterType (name def) (obj_get params (name def))
                (type def)) as [error|v]; [reflexivity|].
    destruct (if is_TString (type def) && truthy v
              then pattern_of def else None) as [p|]; [|reflexivity].
    destruct (RegExp_new p) as [msg|regexp]; [reflexivity|].
    destruct (RegExp_test regexp (ToString v)); reflexivity.
Qed.

(** Two raw mappings that get the same verdicts run the same loop. *)
Lemma validate_defs_ext (p1 p2 : JSObject) (defs : list ParameterDefinition) :
  (forall def, In def defs -> verdict p1 def = verdict p2 def) ->
  forall st, validate_defs p1 st defs = validate_defs p2 st defs.
Proof.
  induction defs as [|def defs IH]; intros H st; [reflexivity|].
  simpl. rewrite !validate_def_verdict, (H def (or_introl eq_refl)).
  destruct (apply_verdict st (name def) (verdict p2 def)); simpl;
    [|reflexivity].
  apply IH. intros d Hd. apply H. right; exact Hd.
Qed.

(** The message of a verdict is the problem of the definition. *)
Lemma verdict_problem (params : JSObject) (def : ParameterDefinition) :
  match verdict params def with
  | Err msg => problem params def = Some msg
  | Abort _ => True
  | _ => problem params def = None
  end.
Proof.
  unfold verdict, problem, pattern_verdict.
  destruct (nullish (obj_get params (name def))).
  - destruct (required def); [reflexivity|].
    destruct (is_undefined (defaultValue def)); reflexivity.
  - destruct (type def) eqn:Ety.
    + (* text *)
      destruct (obj_get params (name def)) as [| | b | n | s | items | props | fname];
        try reflexivity.
      simpl validateParameterType. cbv iota beta.
      destruct (trim (replace_crlf (strip_control s))) as [|c text];
        [reflexivity|].
      simpl. destruct (pattern_of def) as [p|]; [|reflexivity].
      destruct (RegExp_new p) as [msg|regexp]; [exact I|].
      destruct (RegExp_test regexp (c :: text)); reflexivity.
    + destruct (validateParameterType _ _ TNumber); reflexivity.
    + destruct (validateParameterType _ _ TBoolean); reflexivity.
    + destruct (validateParameterType _ _ TArray); reflexivity.
    + reflexivity.
Qed.

Lemma verdict_no_abort (params : JSObject) (def : ParameterDefinition) :
  (forall p, pattern_of def = Some p ->
             exists regexp, RegExp_new p = inr regexp) ->
  forall e, verdict params def <> Abort e.
Proof.
  intros Hc e. unfold verdict, pattern_verdict.
  destruct (nullish (obj_get params (name def))).
  - destruct (required def); [discriminate|].
    destruct (is_undefined (defaultValue def)); discriminate.
  - destruct (validateParameterType _ _ _) as [error|v]; [discriminate|].
    destruct (is_TString (type def) && truthy v); [|discriminate].
    destruct (pattern_of def) as [p|]; [|discriminate].
    destruct (Hc p eq_refl) as [regexp ->].
    destruct (RegExp_test regexp (ToString v)); discriminate.
Qed.

(** A run of the loop that ends normally has appended the problems of the
    definitions to the errors, has stored the entries they contribute, and
    has met no exception. *)
Lemma validate_defs_run (params : JSObject) (defs : list ParameterDefinition) :
  forall st st',
    validate_defs params st defs = Ok st' ->
    snd st' = snd st ++ problems params defs
    /\ fst st' = set_all (fst st) (puts params defs)
    /\ forall def e, In def defs -> verdict params def <> Abort e.
Proof.
  induction defs as [|def defs IH]; intros st st' H.
  - simpl in H. inversion H; subst. simpl. rewrite app_nil_r.
    repeat split. intros def e [].
  - simpl in H. rewrite validate_def_verdict in H.
    pose proof (verdict_problem params def) as Hp.
    unfold problems, puts, set_all. simpl flat_map.
    fold (problems params defs). fold (puts params defs).
    rewrite fold_left_app. fold (set_all (fst st)).
    destruct (verdict params def) as [|v|msg|e0] eqn:Ev; simpl in H;
      try discriminate; rewrite Hp;
      destruct (IH _ _ H) as (He & Hv & Ha); simpl in He, Hv;
      (split; [|split]).
    + simpl. exact He.
    + simpl. exact Hv.
    + intros d e [<-|Hd]; [congruence | apply Ha; exact Hd].
    + simpl. exact He.
    + simpl. exact Hv.
    + intros d e [<-|Hd]; [congruence | apply Ha; exact Hd].
    + simpl. rewrite He, <- app_assoc. reflexivity.
    + simpl. exact Hv.
    + intros d e [<-|Hd]; [congruence | apply Ha; exact Hd].
Qed.

(** When every pattern compiles the loop ends normally. *)
Lemma validate_defs_total (params : JSObject)
    (defs : list ParameterDefinition) :
  patterns_compile defs ->
  forall st, exists st', validate_defs params st defs = Ok st'.
Proof.
  induction defs as [|def defs IH]; intros Hc st.
  - exists st; reflexivity.
  - simpl. rewrite validate_def_verdict.
    assert (Hdef : forall e, verdict params def <> Abort e).
    { apply verdict_no_abort. intros p Hp.
      exact (Hc def p (or_introl eq_refl) Hp). }
    assert (Hrest : patterns_compile defs).
    { intros d p Hd Hp. exact (Hc d p (or_intror Hd) Hp). }
    destruct (verdict params def) as [|v|msg|e] eqn:Ev; simpl;
      try (apply IH; exact Hrest).
    exfalso. exact (Hdef e eq_refl).
Qed.

(** C4 (as amended).  When at least one definition has a problem with the
    raw mapping (a missing required parameter, a value that cannot be
    coerced, or a text value that is not empty once sanitized and fails its
    pattern), [validateParameters] throws, so the caller receives no
    mapping; and when every validation pattern is a regular expression the
    engine accepts, the message thrown is the list of the problems of all
    definitions, one message for each, in the order of the definitions.
    The value of a parameter is what the lookup [params[name]] yields: for
    a name that [Object.prototype] defines and the mapping does not, it is
    the inherited member, a value that cannot be coerced. *)
Theorem validate_collects_problems (params : option JSObject)
    (defs : list ParameterDefinition) :
  (exists def, In def defs /\ problem (params_object params) def <> None) ->
  (exists e, validateParameters params defs = Throw e)
  /\ (patterns_compile defs ->
      validateParameters params defs
      = Throw (Error (js "Invalid parameters: "
                        ++ join (js "; ")
                             (problems (params_object params) defs)))).
Proof.
  intros (def & Hin & Hdef).
  assert (Hne : problems (params_object params) defs <> []).
  { destruct (problem (params_object params) def) as [msg|] eqn:Hp;
      [|congruence].
    assert (Hm : In msg (problems (params_object params) defs)).
    { unfold problems. apply in_flat_map. exists def.
      split; [exact Hin|]. rewrite Hp. left; reflexivity. }
    intros E. rewrite E in Hm. exact Hm. }
  unfold validateParameters.
  split.
  - destruct (validate_defs (params_object params) ([], []) defs)
      as [[validated errors]|e] eqn:Hrun; simpl; [|eauto].
    apply validate_defs_run in Hrun as (He & _ & _). simpl in He. subst.
    destruct (problems (params_object params) defs); [congruence | eauto].
  - intros Hc.
    destruct (validate_defs_total (params_object params) Hc ([], []))
      as [[validated errors] Hrun].
    rewrite Hrun. simpl.
    apply validate_defs_run in Hrun as (He & _ & _). simpl in He. subst.
    destruct (problems (params_object params) defs); [congruence|].
    reflexivity.
Qed.


(** ** Validating a validated mapping again *)

Lemma obj_define_fresh (o : JSObject) (k : jsstring) (v : val) :
  obj_has o k = false -> obj_define o k v = o ++ [(k, v)].
Proof.
  induction o as [|[k' v'] o IH]; simpl; intros H; [reflexivity|].
  apply orb_false_iff in H as [Hk Ho].
  rewrite Hk, (IH Ho). reflexivity.
Qed.

Lemma Object_prototype_get_absent (k : jsstring) :
  Object_prototype_has k = false -> Object_prototype_get k = VUndefined.
Proof.
  unfold Object_prototype_has, Object_prototype_get. intros H.
  apply orb_false_iff in H as [Hp Hm]. rewrite Hm, Hp.
  unfold Object_prototype_methods in Hm. cbn [existsb] in Hm.
  apply orb_false_iff in Hm as [Hc _]. rewrite Hc. reflexivity.
Qed.

Lemma obj_has_app (o1 o2 : JSObject) (k : jsstring) :
  obj_has (o1 ++ o2) k = obj_has o1 k || obj_has o2 k.
Proof.
  induction o1 as [|[k' v'] o1 IH]; simpl; [reflexivity|].
  rewrite IH, orb_assoc. reflexivity.
Qed.

(** Storing entries under fresh, pairwise distinct keys appends those that
    become own properties. *)
Lemma set_all_fresh (entries : JSObject) :
  forall o,
    NoDup (map fst entries) ->
    (forall k, In k (map fst entries) -> obj_has o k = false) ->
    set_all o entries = o ++ own_entries entries.
Proof.
  induction entries as [|[k v] entries IH]; intros o Hnd Hfresh.
  - simpl. rewrite app_nil_r. reflexivity.
  - simpl in Hnd. inversion Hnd as [|k0 l0 Hk Hnd']; subst.
    unfold set_all, own_entries in *. cbn [fold_left filter fst snd].
    unfold obj_set at 2.
    destruct (eqb_js k (js "__proto__")); cbn [negb].
    + apply IH; [exact Hnd'|].
      intros k' Hk'. apply Hfresh. right; exact Hk'.
    + rewrite obj_define_fresh by (apply Hfresh; left; reflexivity).
      rewrite IH.
      * rewrite <- app_assoc. reflexivity.
      * exact Hnd'.
      * intros k' Hk'. rewrite obj_has_app. simpl.
        rewrite (Hfresh k' (or_intror Hk')). simpl. rewrite orb_false_r.
        apply eqb_js_neq. intros ->. exact (Hk Hk').
Qed.

Lemma own_entries_all (entries : JSObject) :
  (forall k, In k (map fst entries) -> Object_prototype_has k = false) ->
  own_entries entries = entries.
Proof.
  unfold own_entries.
  induction entries as [|[k v] entries IH]; intros H; [reflexivity|].
  cbn [filter fst].
  assert (Hk : eqb_js k (js "__proto__") = false).
  { specialize (H k (or_introl eq_refl)). unfold Object_prototype_has in H.
    apply orb_false_iff in H. exact (proj1 H). }
  rewrite Hk. cbn [negb]. f_equal. apply IH.
  intros k' Hk'. apply H. right; exact Hk'.
Qed.

(** Reading a name other than [__proto__] is not affected by leaving the
    entries of that name out. *)
Lemma obj_get_own_entries (entries : JSObject) (k : jsstring) :
  eqb_js k (js "__proto__") = false ->
  obj_get (own_entries entries) k = obj_get entries k.
Proof.
  intros Hk. unfold own_entries.
  induction entries as [|[k' v] entries IH]; [reflexivity|].
  cbn [filter fst obj_get].
  destruct (eqb_js k' (js "__proto__")) eqn:E; cbn [negb].
  - apply eqb_js_eq in E. subst k'.
    rewrite (proj2 (eqb_js_neq (js "__proto__") k)); [exact IH|].
    intros E. rewrite <- E, eqb_js_refl in Hk. discriminate.
  - cbn [obj_get]. destruct (eqb_js k' k) eqn:Ek; [|exact IH].
    reflexivity.
Qed.

Lemma obj_has_own_entries (entries : JSObject) (k : jsstring) :
  obj_has entries k = false -> obj_has (own_entries entries) k = false.
Proof.
  unfold own_entries.
  induction entries as [|[k' v] entries IH]; [reflexivity|].
  cbn [obj_has filter fst]. intros H. apply orb_false_iff in H as [Hk H].
  destruct (eqb_js k' (js "__proto__")); cbn [negb obj_has];
    [exact (IH H)|].
  rewrite Hk. exact (IH H).
Qed.

Lemma puts_keys (params : JSObject) (defs : list ParameterDefinition)
    (k : jsstring) :
  In k (map fst (puts params defs)) -> In k (map name defs).
Proof.
  induction defs as [|def defs IH]; simpl; [auto|].
  unfold puts. simpl flat_map. fold (puts params defs).
  rewrite map_app, in_app_iff. intros [H|H]; [left | right; exact (IH H)].
  destruct (verdict params def); simpl in H; try contradiction.
  destruct H as [H|[]]. exact H.
Qed.

Lemma puts_NoDup (params : JSObject) (defs : list ParameterDefinition) :
  NoDup (map name defs) -> NoDup (map fst (puts params defs)).
Proof.
  induction defs as [|def defs IH]; simpl; intros H; [constructor|].
  inversion H as [|k l Hk Hnd]; subst.
  unfold puts. simpl flat_map. fold (puts params defs).
  destruct (verdict params def); simpl; try (apply IH; exact Hnd).
  constructor; [|apply IH; exact Hnd].
  intros Hin. apply Hk. exact (puts_keys _ _ _ Hin).
Qed.

Lemma obj_get_puts_absent (params : JSObject)
    (defs : list ParameterDefinition) (k : jsstring) :
  ~ In k (map name defs) ->
  obj_get (puts params defs) k = Object_prototype_get k.
Proof.
  induction defs as [|def defs IH]; simpl; intros H; [reflexivity|].
  unfold puts. simpl flat_map. fold (puts params defs).
  assert (Hk : eqb_js (name def) k = false)
    by (apply eqb_js_neq; intros E; apply H; left; exact E).
  assert (Hrest : obj_get (puts params defs) k = Object_prototype_get k)
    by (apply IH; intros E; apply H; right; exact E).
  destruct (verdict params def); simpl; rewrite ?Hk; exact Hrest.
Qed.

(** With pairwise distinct names, the entry stored under the name of a
    definition is the one its verdict contributes. *)
Lemma obj_get_puts (params : JSObject) (defs : list ParameterDefinition)
    (def : ParameterDefinition) :
  NoDup (map name defs) ->
  In def defs ->
  obj_get (puts params defs) (name def)
  = match verdict params def with
    | Put v => v
    | _ => Object_prototype_get (name def)
    end.
Proof.
  induction defs as [|d defs IH]; intros Hnd Hin; [contradiction|].
  simpl in Hnd. inversion Hnd as [|k l Hk Hnd']; subst.
  unfold puts. simpl flat_map. fold (puts params defs).
  destruct Hin as [<-|Hin].
  - pose proof (obj_get_puts_absent params defs (name d) Hk) as Habs.
    destruct (verdict params d); simpl; rewrite ?eqb_js_refl;
      try exact Habs; reflexivity.
  - assert (Hne : eqb_js (name d) (name def) = false).
    { apply eqb_js_neq. intros E. apply Hk. rewrite E.
      apply in_map. exact Hin. }
    destruct (verdict params d); simpl; rewrite ?Hne; apply IH; assumption.
Qed.

Lemma coerced_not_nullish (key : jsstring) (x : val) (t : ParamType)
    (v : val) :
  validateParameterType key x t = TValue v -> nullish v = false.
Proof.
  destruct t; simpl.
  - destruct x; intros H; inversion H; reflexivity.
  - destruct x; try discriminate.
    + destruct (Number_isNaN n); intros H; inversion H; reflexivity.
    + destruct (Number_isNaN (Number_ofString s)); intros H; inversion H;
        reflexivity.
  - destruct x; try discriminate.
    + intros H; inversion H; reflexivity.
    + destruct (eqb_js _ _); [intros H; inversion H; reflexivity|].
      destruct (eqb_js _ _); [intros H; inversion H; reflexivity|].
      discriminate.
  - destruct x; try discriminate.
    + destruct (JSON_parse s) as [[]|]; intros H; inversion H; reflexivity.
    + intros H; inversion H; reflexivity.
  - discriminate.
Qed.

(** What the coercion to number or boolean returns, it returns unchanged
    when it is applied again. *)
Lemma coerced_number_boolean_stable (key : jsstring) (x : val)
    (t : ParamType) (v : val) :
  t = TNumber \/ t = TBoolean ->
  validateParameterType key x t = TValue v ->
  validateParameterType key v t = TValue v.
Proof.
  intros [->| ->]; simpl.
  - destruct x; try discriminate.
    + destruct (Number_isNaN n) eqn:E; intros H; inversion H; subst.
      simpl. rewrite E. reflexivity.
    + destruct (Number_isNaN (Number_ofString s)) eqn:E; intros H;
        inversion H; subst. simpl. rewrite E. reflexivity.
  - destruct x; try discriminate.
    + intros H; inversion H; reflexivity.
    + destruct (eqb_js _ _); [intros H; inversion H; reflexivity|].
      destruct (eqb_js _ _); [intros H; inversion H; reflexivity|].
      discriminate.
Qed.

Lemma pattern_verdict_put (def : ParameterDefinition) (v v' : val) :
  pattern_verdict def v = Put v' -> v' = v.
Proof.
  unfold pattern_verdict.
  destruct (if is_TString (type def) && truthy v then pattern_of def
            else None) as [p|]; [|intros H; inversion H; reflexivity].
  destruct (RegExp_new p) as [msg|regexp]; [discriminate|].
  destruct (RegExp_test regexp (ToString v)); [|discriminate].
  intros H; inversion H; reflexivity.
Qed.

Lemma pattern_verdict_not_skip (def : ParameterDefinition) (v : val) :
  pattern_verdict def v <> Skip.
Proof.
  unfold pattern_verdict.
  destruct (if is_TString (type def) && truthy v then pattern_of def
            else None) as [p|]; [|discriminate].
  destruct (RegExp_new p) as [msg|regexp]; [discriminate|].
  destruct (RegExp_test regexp (ToString v)); discriminate.
Qed.

Lemma passes_pattern_put (def : ParameterDefinition) (v : val) :
  passes_pattern def v -> pattern_verdict def v = Put v.
Proof.
  unfold passes_pattern, pattern_verdict.
  destruct (if is_TString (type def) && truthy v then pattern_of def
            else None) as [p|]; [|reflexivity].
  intros (regexp & -> & ->). reflexivity.
Qed.

End ValidationFacts.

(* ================================================================== *)
(** * Parameter validation at concrete schemas *)
(* ================================================================== *)

(** C4 (as stated) fails: the empty text fails the pattern
    [^(text|json)$] of [format], and validation succeeds and returns it. *)
Lemma validate_accepts_empty_text :
  (exists regexp,
     @RegExp_new Sample.asciiRuntime (js "^(text|json)$") = inr regexp
     /\ @RegExp_test Sample.asciiRuntime regexp [] = false)
  /\ @InputValidation.validateParameters Sample.asciiRuntime
       (Some [(js "format", VString [])]) [Sample.diskFormatDef]
     = Ok [(js "format", VString [])].
Proof.
  split; [|reflexivity].
  eexists. split; [reflexivity | reflexivity].
Qed.

(** The amended C4 at a mapping with two problems: [target] is missing and
    [format] is [xml]. *)
Lemma validate_collects_problems_witness :
  @InputValidation.validateParameters Sample.asciiRuntime
    (Some [(js "format", VString (js "xml"))])
    [Sample.targetDef; Sample.diskFormatDef]
  = Throw (Error (js ("Invalid parameters: Missing required parameter: target"
                        ++ "; Format must be one of: text, json"))).
Proof.
  assert (Hne : exists def,
             In def [Sample.targetDef; Sample.diskFormatDef]
             /\ @Vocabulary.problem Sample.asciiRuntime
                  (InputValidation.params_object
                     (Some [(js "format", VString (js "xml"))])) def
                <> None).
  { exists Sample.targetDef. split; [left; reflexivity|].
    vm_compute. discriminate. }
  assert (Hc : @Vocabulary.patterns_compile Sample.asciiRuntime
                 [Sample.targetDef; Sample.diskFormatDef]).
  { intros def p [<-|[<-|[]]] Hp; vm_compute in Hp; inversion Hp; subst.
    eexists. vm_compute. reflexivity. }
  exact (proj2 (@validate_collects_problems Sample.asciiRuntime _ _ Hne) Hc).
Defined.



(** C9 at its failing input.  [verbose] is optional and has no default, for
    which the schema stores [null]; called without it, validation returns a
    mapping that has an entry for [verbose], with the value [null].  Only a
    definition whose [defaultValue] is [undefined] is left out. *)
Lemma optional_without_default_yields_null :
  @InputValidation.validateParameters Sample.asciiRuntime (Some [])
    [Sample.verboseDef]
  = Ok [(js "verbose", VNull)]
  /\ @obj_has Sample.asciiRuntime [(js "verbose", VNull)] (js "verbose")
     = true
  /\ @InputValidation.validateParameters Sample.asciiRuntime (Some [])
       [InputValidation.mkDef (js "verbose") (js "Verbose output")
          InputValidation.TBoolean false VUndefined None None]
     = Ok [].
Proof. repeat split. Qed.

(* ================================================================== *)
(** * Further properties: coercion *)
(* ================================================================== *)

Section CoercionFacts.
Context {rt : JSRuntime}.
Import InputValidation Vocabulary Shapes.

Lemma has_crlf_cons2 (c d : N) (t : jsstring) :
  has_crlf (c :: d :: t)
  = (N.eqb c 13 && N.eqb d 10) || has_crlf (d :: t).
Proof.
  unfold has_crlf. cbn [contains starts_with].
  rewrite andb_true_r, (N.eqb_sym 13 c), (N.eqb_sym 10 d). reflexivity.
Qed.

Lemma replace_crlf_unfold2 (c d : N) (t : jsstring) :
  replace_crlf (c :: d :: t)
  = if N.eqb c 13 && N.eqb d 10 then 10%N :: replace_crlf t
    else c :: replace_crlf (d :: t).
Proof. reflexivity. Qed.

Lemma replace_crlf_length_le (s : jsstring) :
  (List.length (replace_crlf s) <= List.length s)%nat.
Proof.
  induction s as [| c | c d t IHt IHdt] using jsstring_pair_ind.
  - apply le_n.
  - apply le_n.
  - rewrite replace_crlf_unfold2.
    destruct (N.eqb c 13 && N.eqb d 10); simpl in *; lia.
Qed.

Lemma replace_crlf_shrinks (s : jsstring) :
  has_crlf s = true ->
  (List.length (replace_crlf s) < List.length s)%nat.
Proof.
  induction s as [| c | c d t IHt IHdt] using jsstring_pair_ind; intros H.
  - discriminate.
  - unfold has_crlf in H. cbn [contains starts_with] in H.
    rewrite andb_false_r in H. discriminate.
  - rewrite has_crlf_cons2 in H. rewrite replace_crlf_unfold2.
    destruct (N.eqb c 13 && N.eqb d 10).
    + pose proof (replace_crlf_length_le t). simpl. lia.
    + simpl in H. specialize (IHdt H). simpl in *. lia.
Qed.

Lemma replace_crlf_fixed (s : jsstring) :
  has_crlf s = false -> replace_crlf s = s.
Proof.
  induction s as [| c | c d t IHt IHdt] using jsstring_pair_ind; intros H.
  - reflexivity.
  - reflexivity.
  - rewrite has_crlf_cons2 in H. apply orb_false_iff in H as [Hcd H].
    rewrite replace_crlf_unfold2, Hcd, (IHdt H). reflexivity.
Qed.

Lemma trimStart_fixed (s : jsstring) :
  starts_ws s = false -> trimStart s = s.
Proof.
  destruct s as [|c t]; simpl; [reflexivity|]. intros ->. reflexivity.
Qed.

Lemma trim_fixed (s : jsstring) : trimmed s = true -> trim s = s.
Proof.
  unfold trimmed, trim, trimEnd. intros H.
  apply andb_true_iff in H as [H1 H2].
  apply negb_true_iff in H1, H2.
  rewrite (trimStart_fixed _ H1), (trimStart_fixed _ H2).
  apply rev_involutive.
Qed.

Lemma trim_length_le (s : jsstring) :
  (List.length (trim s) <= List.length s)%nat.
Proof.
  unfold trim.
  destruct (trimStart_suffix s) as [ws1 H1].
  destruct (trimEnd_prefix (trimStart s)) as [ws2 H2].
  rewrite H1 at 2. rewrite H2 at 2.
  rewrite !length_app. lia.
Qed.

Lemma strip_control_fixed (s : jsstring) :
  control_free s = true -> strip_control s = s.
Proof.
  unfold control_free, strip_control.
  induction s as [|c t IH]; simpl; [reflexivity|].
  intros H. apply andb_true_iff in H as [Hc Ht].
  rewrite Hc, (IH Ht). reflexivity.
Qed.

(** X1.  [sanitizeString] never makes a text longer, and sanitizing its
    output once more returns that output exactly when the output holds no
    CR LF pair. *)
Theorem sanitizeString_fixed_point (s : jsstring) :
  let w := sanitizeString (VString s) in
  (List.length w <= List.length s)%nat
  /\ (sanitizeString (VString w) = w <-> has_crlf w = false).
Proof.
  cbv zeta.
  destruct (sanitizeString_properties s) as (Hcf & Htr & _).
  cbv zeta in Hcf, Htr.
  set (w := sanitizeString (VString s)) in *.
  split.
  - unfold w, sanitizeString.
    pose proof (trim_length_le (replace_crlf (strip_control s))).
    pose proof (replace_crlf_length_le (strip_control s)).
    pose proof (filter_length_le (fun c => negb (isControlChar c)) s).
    unfold strip_control in *. lia.
  - unfold sanitizeString at 1. rewrite (strip_control_fixed _ Hcf). split.
    + intros Hfix. destruct (has_crlf w) eqn:E; [|reflexivity].
      apply replace_crlf_shrinks in E.
      pose proof (trim_length_le (replace_crlf w)).
      rewrite Hfix in H. lia.
    + intros Hno. rewrite (replace_crlf_fixed _ Hno). apply trim_fixed, Htr.
Qed.

Lemma coerced_has_type (key : jsstring) (x : val) (t : ParamType) (v : val) :
  validateParameterType key x t = TValue v -> has_type t v = true.
Proof.
  destruct t; simpl.
  - destruct x; intros H; inversion H; reflexivity.
  - destruct x; try discriminate.
    + destruct (Number_isNaN n) eqn:E; intros H; inversion H; subst.
      simpl. rewrite E. reflexivity.
    + destruct (Number_isNaN (Number_ofString s)) eqn:E; intros H;
        inversion H; subst. simpl. rewrite E. reflexivity.
  - destruct x; try discriminate.
    + intros H; inversion H; reflexivity.
    + destruct (eqb_js _ _); [intros H; inversion H; reflexivity|].
      destruct (eqb_js _ _); [intros H; inversion H; reflexivity|].
      discriminate.
  - destruct x; try discriminate.
    + destruct (JSON_parse s) as [[]|]; intros H; inversion H; reflexivity.
    + intros H; inversion H; reflexivity.
  - discriminate.
Qed.

(** X2.  What type validation returns as a value is of the declared type:
    a string for [string], a number that is not NaN for [number], a boolean
    for [boolean], an array for [array]; so it is never [null] or
    [undefined]. *)
Theorem coercion_is_typed (key : jsstring) (x : val) (t : ParamType)
    (v : val) :
  validateParameterType key x t = TValue v ->
  has_type t v = true /\ nullish v = false.
Proof.
  intros H. split.
  - exact (coerced_has_type _ _ _ H).
  - exact (coerced_not_nullish _ _ _ H).
Qed.

End CoercionFacts.

(** X2 at the text [12] for the [number] parameter [min-size]. *)
Lemma coercion_is_typed_witness :
  @Shapes.has_type Sample.asciiRuntime InputValidation.TNumber
    (VNumber (Some 12%Z)) = true
  /\ @nullish Sample.asciiRuntime (VNumber (Some 12%Z)) = false.
Proof.
  exact (@coercion_is_typed Sample.asciiRuntime (js "min-size")
           (VString (js "12")) InputValidation.TNumber
           (VNumber (Some 12%Z)) eq_refl).
Defined.

Section ListAndIdFacts.
Context {rt : JSRuntime}.
Import InputValidation Vocabulary Shapes.

Lemma trim_In (s : jsstring) (c : N) : In c (trim s) -> In c s.
Proof.
  unfold trim. intros H.
  destruct (trimStart_suffix s) as [ws1 H1].
  destruct (trimEnd_prefix (trimStart s)) as [ws2 H2].
  rewrite H1. apply in_or_app. right.
  rewrite H2. apply in_or_app. left. exact H.
Qed.

Lemma split_on_shape (sep : N) (s : jsstring) :
  List.length (split_on sep s) = S (occurrences sep s)
  /\ Forall (fun piece => ~ In sep piece) (split_on sep s).
Proof.
  unfold occurrences.
  induction s as [|c t [IHl IHf]]; simpl.
  - split; [reflexivity|]. constructor; [intros []|constructor].
  - rewrite (N.eqb_sym sep c).
    destruct (N.eqb c sep) eqn:E.
    + simpl. split; [f_equal; exact IHl|].
      constructor; [intros []|exact IHf].
    + destruct (split_on sep t) as [|h r]; [discriminate|].
      split; [exact IHl|].
      inversion IHf as [|? ? Hh Hr]; subst.
      constructor; [|exact Hr].
      intros [Hc|Hc]; [|exact (Hh Hc)].
      subst c. rewrite N.eqb_refl in E. discriminate.
Qed.

(** X3.  Type validation of a list parameter.  An array is returned with
    the same length, each text element sanitized (free of the stripped
    control characters, trimmed) and every other element as it is.  A text
    that [JSON.parse] rejects is cut at its commas: there is one piece more
    than commas, every piece is trimmed and holds no comma.  A text that
    parses to an array is replaced by that array as it is, without
    sanitizing; one that parses to anything else, and every value that is
    neither text nor array, is an error. *)
Theorem array_coercion_shape (key : jsstring) (x : val) :
  match x with
  | VArray items =>
      exists items',
        validateParameterType key x TArray = TValue (VArray items')
        /\ Forall2
             (fun item item' =>
                match item with
                | VString _ =>
                    exists w, item' = VString w
                              /\ control_free w = true /\ trimmed w = true
                | _ => item' = item
                end) items items'
  | VString s =>
      match JSON_parse s with
      | None =>
          exists pieces,
            validateParameterType key x TArray
            = TValue (VArray (map VString pieces))
            /\ List.length pieces = S (occurrences 44 s)
            /\ Forall (fun piece => trimmed piece = true /\ ~ In 44%N piece)
                 pieces
      | Some (VArray items) =>
          validateParameterType key x TArray = TValue (VArray items)
      | Some _ =>
          validateParameterType key x TArray
          = TError (js "Parameter " ++ key ++ js " must be an array")
      end
  | _ =>
      validateParameterType key x TArray
      = TError (js "Parameter " ++ key ++ js " must be an array")
  end.
Proof.
  destruct x as [| | b | n | s | items | props | fname]; try reflexivity.
  - simpl. destruct (JSON_parse s) as [[]|]; try reflexivity.
    exists (map trim (split_on 44 s)).
    destruct (split_on_shape 44 s) as [Hl Hf].
    split; [rewrite map_map; reflexivity|].
    split; [rewrite length_map; exact Hl|].
    apply Forall_map. revert Hf. apply Forall_impl.
    intros piece Hp. split; [apply trim_trimmed|].
    intros Hin. exact (Hp (trim_In _ _ Hin)).
  - eexists. split; [reflexivity|].
    induction items as [|item items IH]; simpl; constructor; [|exact IH].
    destruct item; try reflexivity.
    eexists. split; [reflexivity|].
    destruct (sanitizeString_properties s) as (Hc & Ht & _).
    split; [exact Hc | exact Ht].
Qed.

Lemma id_char_not_ws (c : N) :
  isModuleIdChar c = true -> isWhiteSpace c = false.
Proof.
  unfold isModuleIdChar, isWhiteSpace, in_range. intros H.
  repeat rewrite ?orb_true_iff, ?andb_true_iff, ?N.leb_le, ?N.eqb_eq in H.
  apply not_true_is_false. intros Hw.
  repeat rewrite ?orb_true_iff, ?andb_true_iff, ?N.leb_le, ?N.eqb_eq in Hw.
  lia.
Qed.

Lemma ids_trimmed (s : jsstring) :
  forallb isModuleIdChar s = true -> trim s = s.
Proof.
  intros H. apply trim_fixed. unfold trimmed.
  assert (Hhead : forall u, forallb isModuleIdChar u = true ->
                            starts_ws u = false).
  { intros [|c u] Hu; [reflexivity|]. simpl in *.
    apply andb_true_iff in Hu as [Hc _]. exact (id_char_not_ws _ Hc). }
  rewrite (Hhead s H), (Hhead (rev s)); [reflexivity|].
  rewrite forallb_forall in *. intros c Hc. apply H, in_rev, Hc.
Qed.

Lemma filter_forallb (p : N -> bool) (s : jsstring) :
  forallb p (filter p s) = true.
Proof.
  apply forallb_forall. intros c Hc. apply filter_In in Hc. exact (proj2 Hc).
Qed.

Lemma filter_fixed (p : N -> bool) (s : jsstring) :
  forallb p s = true -> filter p s = s.
Proof.
  induction s as [|c t IH]; simpl; [reflexivity|].
  intros H. apply andb_true_iff in H as [Hc Ht].
  rewrite Hc, (IH Ht). reflexivity.
Qed.

Lemma sanitizeModuleId_chars (moduleId : val) (id : jsstring) :
  sanitizeModuleId moduleId = Some id -> forallb isModuleIdChar id = true.
Proof.
  destruct moduleId; try discriminate. simpl.
  destruct (negb (nonempty s)); [discriminate|].
  intros H. inversion H. apply filter_forallb.
Qed.

(** Sanitizing a sanitized identifier returns it, when lower-casing keeps
    identifiers. *)
Lemma sanitizeModuleId_again (id : jsstring) :
  lowercase_keeps_ids ->
  forallb isModuleIdChar id = true ->
  nonempty id = true ->
  sanitizeModuleId (VString id) = Some id.
Proof.
  intros Hlow Hid Hne. unfold sanitizeModuleId. rewrite Hne. simpl.
  rewrite (ids_trimmed _ Hid), (Hlow _ Hid), (filter_fixed _ _ Hid).
  reflexivity.
Qed.

(** X4.  [sanitizeModuleId] answers [null] exactly for a value that is not
    a string and for the empty string; any other answer consists of
    lower-case letters, digits and underscores only (and may be empty, when
    no such character is left); and when lower-casing keeps such strings, a
    non-empty answer is returned unchanged when it is sanitized again. *)
Theorem sanitizeModuleId_shape (moduleId : val) :
  (sanitizeModuleId moduleId = None <->
   match moduleId with
   | VString s => s = []
   | _ => True
   end)
  /\ (forall id, sanitizeModuleId moduleId = Some id ->
        forallb isModuleIdChar id = true
        /\ (lowercase_keeps_ids -> nonempty id = true ->
            sanitizeModuleId (VString id) = Some id)).
Proof.
  split.
  - destruct moduleId as [| | b | n | s | items | props | fname]; simpl;
      try (split; [intros _; exact I | reflexivity]).
    destruct s; simpl; split; intros H; try reflexivity; discriminate.
  - intros id H.
    pose proof (sanitizeModuleId_chars _ H) as Hid.
    split; [exact Hid|]. intros Hlow Hne.
    apply sanitizeModuleId_again; assumption.
Qed.

End ListAndIdFacts.


(* ================================================================== *)
(** * Further properties: the validated mapping *)
(* ================================================================== *)

Section OutputFacts.
Context {rt : JSRuntime}.
Import InputValidation Vocabulary Shapes.

Lemma obj_has_keys (o : JSObject) (k : jsstring) :
  obj_has o k = true <-> In k (keys o).
Proof.
  unfold keys. induction o as [|[k' v] o IH]; simpl.
  - split; [discriminate | intros []].
  - rewrite orb_true_iff, eqb_js_eq, IH. reflexivity.
Qed.

Lemma obj_define_keys (o : JSObject) (k : jsstring) (v : val) :
  keys (obj_define o k v) = if obj_has o k then keys o else keys o ++ [k].
Proof.
  unfold keys. induction o as [|[k' v'] o IH]; simpl; [reflexivity|].
  destruct (eqb_js k' k); simpl; [reflexivity|].
  rewrite IH. destruct (obj_has o k); reflexivity.
Qed.

Lemma obj_set_keys (o : JSObject) (k : jsstring) (v : val) :
  keys (obj_set o k v)
  = if eqb_js k (js "__proto__") || obj_has o k then keys o
    else keys o ++ [k].
Proof.
  unfold obj_set. destruct (eqb_js k (js "__proto__")); [reflexivity|].
  apply obj_define_keys.
Qed.

Lemma obj_set_NoDup (o : JSObject) (k : jsstring) (v : val) :
  NoDup (keys o) -> NoDup (keys (obj_set o k v)).
Proof.
  intros H. rewrite obj_set_keys.
  destruct (eqb_js k (js "__proto__")); [exact H|]. cbn [orb].
  destruct (obj_has o k) eqn:E; [exact H|].
  apply NoDup_rev in H. rewrite <- (rev_involutive (keys o ++ [k])).
  apply NoDup_rev. rewrite rev_app_distr. simpl. constructor; [|exact H].
  rewrite <- in_rev. intros Hin. apply obj_has_keys in Hin. congruence.
Qed.

(** Storing entries keeps the keys distinct and adds only keys of the
    entries. *)
Lemma set_all_keys (entries : JSObject) :
  forall o,
    NoDup (keys o) ->
    NoDup (keys (set_all o entries))
    /\ forall k, In k (keys (set_all o entries)) ->
                 In k (keys o) \/ In k (keys entries).
Proof.
  induction entries as [|[k v] entries IH]; intros o Hnd.
  - split; [exact Hnd | auto].
  - unfold set_all in *. simpl fold_left.
    destruct (IH (obj_set o k v) (obj_set_NoDup o k v Hnd)) as [Hn Hk].
    split; [exact Hn|].
    intros k' Hin. destruct (Hk k' Hin) as [H|H].
    + rewrite obj_set_keys in H.
      destruct (eqb_js k (js "__proto__") || obj_has o k).
      * left; exact H.
      * apply in_app_or in H as [H|[<-|[]]]; [left; exact H|].
        right; left; reflexivity.
    + right; right; exact H.
Qed.

(** What a successful validation returns. *)
Lemma validateParameters_output (params : option JSObject)
    (defs : list ParameterDefinition) (V : JSObject) :
  validateParameters params defs = Ok V ->
  V = set_all [] (puts (params_object params) defs)
  /\ problems (params_object params) defs = []
  /\ forall def e, In def defs ->
                   verdict (params_object params) def <> Abort e.
Proof.
  unfold validateParameters. intros H.
  destruct (validate_defs (params_object params) ([], []) defs)
    as [[validated errors]|e] eqn:Hrun; simpl in H; [|discriminate].
  destruct errors; [|discriminate]. inversion H; subst.
  destruct (validate_defs_run _ _ _ Hrun) as (He & Hv & Ha).
  simpl in He, Hv. auto.
Qed.

Lemma problems_nil (params : JSObject) (defs : list ParameterDefinition) :
  problems params defs = [] <->
  forall def, In def defs -> problem params def = None.
Proof.
  unfold problems. induction defs as [|d defs IH]; simpl.
  - split; [intros _ def [] | reflexivity].
  - destruct (problem params d) as [msg|] eqn:E; simpl.
    + split; [discriminate|]. intros H.
      specialize (H d (or_introl eq_refl)). congruence.
    + rewrite IH. split.
      * intros H def [<-|Hd]; [exact E | exact (H def Hd)].
      * intros H def Hd. apply H. right; exact Hd.
Qed.

(** X5.  When every validation pattern of the schema compiles, validation
    succeeds exactly when no definition has a problem with the raw
    mapping. *)
Theorem validate_succeeds_iff_no_problem (params : option JSObject)
    (defs : list ParameterDefinition) :
  patterns_compile defs ->
  ((exists V, validateParameters params defs = Ok V)
   <-> forall def, In def defs ->
                   problem (params_object params) def = None).
Proof.
  intros Hc. split.
  - intros [V HV]. apply problems_nil.
    exact (proj1 (proj2 (validateParameters_output _ _ HV))).
  - intros Hnone. apply problems_nil in Hnone.
    destruct (validate_defs_total (params_object params) Hc ([], []))
      as [[validated errors] Hrun].
    unfold validateParameters. rewrite Hrun. simpl.
    apply validate_defs_run in Hrun as (He & _ & _). simpl in He.
    rewrite Hnone in He. subst errors. eauto.
Qed.

(** X6.  The keys of a validated mapping are pairwise distinct and each is
    the name of a definition of the schema: what the caller supplies under
    any other name does not reach the output. *)
Theorem validated_keys_declared (params : option JSObject)
    (defs : list ParameterDefinition) (V : JSObject) :
  validateParameters params defs = Ok V ->
  NoDup (keys V)
  /\ forall k, In k (keys V) -> exists def, In def defs /\ name def = k.
Proof.
  intros H. destruct (validateParameters_output _ _ H) as (HV & _ & _).
  pose proof (set_all_keys (puts (params_object params) defs)) as Hs.
  specialize (Hs [] (NoDup_nil _)). destruct Hs as [Hn Hk].
  rewrite <- HV in Hn, Hk. split; [exact Hn|].
  intros k Hin. destruct (Hk k Hin) as [[]|Hp].
  apply puts_keys in Hp. apply in_map_iff in Hp as (def & E & Hd). eauto.
Qed.

(** X7.  Validation reads the raw mapping only under the names of the
    schema: two raw mappings that agree under every declared name get the
    same outcome, message included. *)
Theorem validate_ignores_undeclared (p1 p2 : JSObject)
    (defs : list ParameterDefinition) :
  (forall def, In def defs -> obj_get p1 (name def) = obj_get p2 (name def)) ->
  validateParameters (Some p1) defs = validateParameters (Some p2) defs.
Proof.
  intros H. unfold validateParameters. simpl params_object.
  rewrite (validate_defs_ext p1 p2 defs); [reflexivity|].
  intros def Hd. unfold verdict. rewrite (H def Hd). reflexivity.
Qed.

Lemma obj_has_puts_absent (params : JSObject)
    (defs : list ParameterDefinition) (k : jsstring) :
  ~ In k (map name defs) -> obj_has (puts params defs) k = false.
Proof.
  intros H. destruct (obj_has (puts params defs) k) eqn:E; [|reflexivity].
  apply obj_has_keys in E. exfalso. apply H. exact (puts_keys _ _ _ E).
Qed.

Lemma obj_has_puts_skip (params : JSObject)
    (defs : list ParameterDefinition) (def : ParameterDefinition) :
  NoDup (map name defs) ->
  In def defs ->
  verdict params def = Skip ->
  obj_has (puts params defs) (name def) = false.
Proof.
  induction defs as [|d defs IH]; intros Hnd Hin Hs; [contradiction|].
  simpl in Hnd. inversion Hnd as [|k l Hk Hnd']; subst.
  unfold puts. simpl flat_map. fold (puts params defs).
  rewrite obj_has_app. apply orb_false_iff. destruct Hin as [<-|Hin].
  - rewrite Hs. split; [reflexivity|]. apply obj_has_puts_absent, Hk.
  - split; [|apply IH; assumption].
    assert (Hne : eqb_js (name d) (name def) = false).
    { apply eqb_js_neq. intros E. apply Hk. rewrite E.
      apply in_map. exact Hin. }
    destruct (verdict params d); simpl; rewrite ?Hne; reflexivity.
Qed.

(** X8.  For a schema with pairwise distinct names and a successful
    validation, the output under the name of a definition, [__proto__]
    apart (an assignment to that name creates no entry), is: for a
    parameter the caller left out (or gave as [null]), nothing when the
    definition's default is [undefined], and otherwise the default exactly
    as stored, neither coerced nor checked against the pattern; for a
    supplied parameter, the value type validation returns for it, which is
    of the declared type. *)
Theorem validated_entries (params : option JSObject)
    (defs : list ParameterDefinition) (V : JSObject)
    (def : ParameterDefinition) :
  NoDup (map name defs) ->
  validateParameters params defs = Ok V ->
  In def defs ->
  name def <> js "__proto__" ->
  let x := obj_get (params_object params) (name def) in
  if nullish x then
    required def = false
    /\ (if is_undefined (defaultValue def)
        then obj_has V (name def) = false
        else obj_get V (name def) = defaultValue def)
  else
    exists v,
      validateParameterType (name def) x (type def) = TValue v
      /\ obj_get V (name def) = v
      /\ has_type (type def) v = true.
Proof.
  intros Hnd Hrun Hin Hname. cbv zeta.
  destruct (validateParameters_output _ _ Hrun) as (HV & Hp & Ha).
  rewrite set_all_fresh in HV;
    [| apply puts_NoDup; exact Hnd | reflexivity].
  cbn [app] in HV.
  apply eqb_js_neq in Hname.
  pose proof (obj_get_puts (params_object params) defs def Hnd Hin) as Hget.
  rewrite <- (obj_get_own_entries _ _ Hname) in Hget.
  pose proof (verdict_problem (params_object params) def) as Hvp.
  pose proof (proj1 (problems_nil _ _) Hp def Hin) as Hnone.
  assert (Hskip : verdict (params_object params) def = Skip ->
                  obj_has V (name def) = false).
  { intros Hs. rewrite HV. apply obj_has_own_entries.
    exact (obj_has_puts_skip (params_object params) defs def Hnd Hin Hs). }
  rewrite <- HV in Hget.
  specialize (Ha def). revert Hget Hvp Hskip Ha. unfold verdict.
  destruct (nullish (obj_get (params_object params) (name def))).
  - destruct (required def).
    + intros _ Hvp _ _. congruence.
    + destruct (is_undefined (defaultValue def)); intros Hget _ Hskip _.
      * split; [reflexivity | exact (Hskip eq_refl)].
      * split; [reflexivity | exact Hget].
  - destruct (validateParameterType (name def)
                (obj_get (params_object params) (name def)) (type def))
      as [error|v] eqn:Hco.
    + intros _ Hvp _ _. congruence.
    + intros Hget Hvp _ Ha. exists v. split; [reflexivity|].
      split; [|exact (coerced_has_type _ _ _ Hco)].
      destruct (pattern_verdict def v) as [|v'|msg|e] eqn:Hpv.
      * exfalso. exact (pattern_verdict_not_skip _ _ Hpv).
      * rewrite Hget. exact (pattern_verdict_put _ _ Hpv).
      * congruence.
      * exfalso. exact (Ha e Hin eq_refl).
Qed.

End OutputFacts.

(** X5 at the parameters of [disk_usage], called with [{format: "json"}]. *)
Lemma validate_succeeds_iff_no_problem_witness :
  exists V,
    @InputValidation.validateParameters Sample.asciiRuntime
      (Some [(js "format", VString (js "json"))])
      [Sample.minSizeDef; Sample.diskFormatDef] = Ok V.
Proof.
  apply (@validate_succeeds_iff_no_problem Sample.asciiRuntime).
  - intros def p [<-|[<-|[]]] Hp; vm_compute in Hp; inversion Hp; subst.
    eexists. vm_compute. reflexivity.
  - intros def [<-|[<-|[]]]; reflexivity.
Defined.

(** X6 at a call that also supplies the undeclared [shell]. *)
Lemma validated_keys_declared_witness :
  NoDup [js "min-size"; js "format"]
  /\ forall k, In k [js "min-size"; js "format"] ->
       exists def, In def [Sample.minSizeDef; Sample.diskFormatDef]
                   /\ InputValidation.name def = k.
Proof.
  exact (@validated_keys_declared Sample.asciiRuntime
           (Some [(js "format", VString (js "json"));
                  (js "shell", VString (js "sh"))])
           [Sample.minSizeDef; Sample.diskFormatDef]
           [(js "min-size", VNumber (Some 0%Z));
            (js "format", VString (js "json"))] eq_refl).
Defined.

(** X7 at the same two calls, with and without [shell]. *)
Lemma validate_ignores_undeclared_witness :
  @InputValidation.validateParameters Sample.asciiRuntime
    (Some [(js "format", VString (js "json"))])
    [Sample.minSizeDef; Sample.diskFormatDef]
  = @InputValidation.validateParameters Sample.asciiRuntime
      (Some [(js "format", VString (js "json"));
             (js "shell", VString (js "sh"))])
      [Sample.minSizeDef; Sample.diskFormatDef].
Proof.
  apply (@validate_ignores_undeclared Sample.asciiRuntime).
  intros def [<-|[<-|[]]]; reflexivity.
Defined.

(** X8 at [min-size], which the call leaves out: the default [0] is
    stored. *)
Lemma validated_entries_witness :
  InputValidation.required Sample.minSizeDef = false
  /\ @obj_get Sample.asciiRuntime
       [(js "min-size", VNumber (Some 0%Z));
        (js "format", VString (js "json"))] (js "min-size")
     = VNumber (Some 0%Z).
Proof.
  assert (Hnd : NoDup (map (@InputValidation.name Sample.asciiRuntime)
                         [Sample.minSizeDef; Sample.diskFormatDef])).
  { repeat constructor; simpl; intuition discriminate. }
  assert (Hname : @InputValidation.name Sample.asciiRuntime Sample.minSizeDef
                  <> js "__proto__") by discriminate.
  exact (@validated_entries Sample.asciiRuntime
           (Some [(js "format", VString (js "json"))])
           [Sample.minSizeDef; Sample.diskFormatDef]
           [(js "min-size", VNumber (Some 0%Z));
            (js "format", VString (js "json"))]
           Sample.minSizeDef Hnd eq_refl (or_introl eq_refl) Hname).
Defined.

(* ================================================================== *)
(** * Validating a validated mapping again *)
(* ================================================================== *)

Section RevalidationFacts.
Context {rt : JSRuntime}.
Import InputValidation Vocabulary Shapes.

(** A definition whose entry is stable gets, on the validated mapping, the
    verdict it got on the raw one. *)
Lemma verdict_stable (params V : JSObject) (def : ParameterDefinition) :
  obj_get V (name def)
  = match verdict params def with
    | Put v => v
    | _ => VUndefined
    end ->
  (forall msg, verdict params def <> Err msg) ->
  (forall e, verdict params def <> Abort e) ->
  entry_stable params V def ->
  verdict V def = verdict params def.
Proof.
  intros Hget Hnoerr Hnoabort Hstable.
  unfold entry_stable in Hstable. cbv zeta in Hstable.
  revert Hget Hnoerr Hnoabort. unfold verdict at 1 2 3 5.
  destruct (nullish (obj_get params (name def))) eqn:Hnull.
  - destruct (required def) eqn:Hreq.
    { intros _ H _. exfalso. exact (H _ eq_refl). }
    destruct (is_undefined (defaultValue def)) eqn:Hundef.
    + intros Hget _ _. unfold verdict. rewrite Hget. simpl.
      rewrite Hreq, Hundef. reflexivity.
    + intros Hget _ _. unfold verdict. rewrite Hget.
      destruct (nullish (defaultValue def)) eqn:Hdn.
      * rewrite Hreq, Hundef. reflexivity.
      * rewrite Hget, Hdn in Hstable.
        destruct (Hstable eq_refl) as [Hco Hpat].
        rewrite Hco. apply passes_pattern_put. apply Hpat. reflexivity.
  - destruct (validateParameterType (name def) (obj_get params (name def))
                (type def)) as [error|v] eqn:Hco.
    { intros _ H _. exfalso. exact (H _ eq_refl). }
    pose proof (coerced_not_nullish _ _ _ Hco) as Hvn.
    destruct (pattern_verdict def v) as [|v'|msg|e] eqn:Hpv.
    + exfalso. exact (pattern_verdict_not_skip _ _ Hpv).
    + pose proof (pattern_verdict_put _ _ Hpv) as ->.
      intros Hget _ _. unfold verdict. rewrite Hget, Hvn.
      rewrite Hget, Hvn in Hstable.
      destruct (Hstable eq_refl) as [Hco' _]. rewrite Hco'. exact Hpv.
    + intros _ H _. exfalso. exact (H _ eq_refl).
    + intros _ _ H. exfalso. exact (H _ eq_refl).
Qed.

(** Sanitizing leaves a clean text as it is, and the coercion to the
    declared type leaves a value of that type as it is when its texts are
    clean. *)
Lemma clean_text_fixed (s : jsstring) :
  clean_text s = true -> trim (replace_crlf (strip_control s)) = s.
Proof.
  unfold clean_text. intros H.
  apply andb_true_iff in H as [H Hcrlf].
  apply andb_true_iff in H as [Hcf Htr].
  apply negb_true_iff in Hcrlf.
  rewrite (strip_control_fixed _ Hcf), (replace_crlf_fixed _ Hcrlf).
  exact (trim_fixed _ Htr).
Qed.

Lemma typed_clean_fixed (key : jsstring) (t : ParamType) (w : val) :
  has_type t w = true ->
  clean_value w = true ->
  validateParameterType key w t = TValue w.
Proof.
  destruct t; destruct w; simpl; try discriminate.
  - intros _ Hc. rewrite (clean_text_fixed _ Hc). reflexivity.
  - intros Hn _. apply negb_true_iff in Hn. rewrite Hn. reflexivity.
  - reflexivity.
  - intros _ Hc. do 2 f_equal.
    induction items as [|item items IH]; [reflexivity|].
    simpl in Hc. apply andb_true_iff in Hc as [Hitem Hrest].
    simpl. rewrite (IH Hrest). f_equal.
    destruct item; try reflexivity.
    simpl. rewrite (clean_text_fixed _ Hitem). reflexivity.
Qed.

(** A value that is not [null], read under a name that [Object.prototype]
    does not define, is an own property. *)
Lemma obj_get_In (o : JSObject) (k : jsstring) (w : val) :
  obj_get o k = w ->
  Object_prototype_has k = false ->
  nullish w = false ->
  In (k, w) o.
Proof.
  intros Hget Hproto Hw.
  induction o as [|[k' v] o IH]; cbn [obj_get] in Hget.
  - rewrite (Object_prototype_get_absent _ Hproto) in Hget.
    subst w. discriminate.
  - destruct (eqb_js k' k) eqn:E.
    + apply eqb_js_eq in E. subst. left; reflexivity.
    + right. exact (IH Hget).
Qed.

(** C7 (as amended).  For a schema whose parameter names are pairwise
    distinct and are not names of members of [Object.prototype], and whose
    optional definitions have a default that is [null] or [undefined] or
    else of the declared type and accepted by the pattern check of its
    definition: when validation of a
    raw mapping succeeds with output [V] and every text in [V] (a text
    value, a text element of a list value) is clean, that is without
    stripped control character, without white space at either end and
    without CR LF pair, then validating [V] against the same schema
    succeeds and returns [V]. *)
Theorem validate_idempotent (params : option JSObject)
    (defs : list ParameterDefinition) (V : JSObject) :
  NoDup (map name defs) ->
  (forall def, In def defs -> Object_prototype_has (name def) = false) ->
  (forall def, In def defs -> sound_default def) ->
  validateParameters params defs = Ok V ->
  (forall k v, In (k, v) V -> clean_value v = true) ->
  validateParameters (Some V) defs = Ok V.
Proof.
  intros Hnd Hnames Hdefaults Hrun Hclean.
  destruct (validateParameters_output _ _ Hrun) as (HV & Hp & Ha).
  rewrite set_all_fresh in HV;
    [| apply puts_NoDup; exact Hnd | reflexivity].
  cbn [app] in HV.
  rewrite own_entries_all in HV.
  2:{ intros k Hk. apply puts_keys in Hk.
      apply in_map_iff in Hk as (def & <- & Hd). exact (Hnames def Hd). }
  assert (Hget : forall def, In def defs ->
            obj_get V (name def)
            = match verdict (params_object params) def with
              | Put v => v
              | _ => VUndefined
              end).
  { intros def Hin. rewrite HV.
    rewrite (obj_get_puts (params_object params) defs def Hnd Hin).
    rewrite (Object_prototype_get_absent _ (Hnames def Hin)). reflexivity. }
  assert (Hsame : forall def, In def defs ->
            verdict V def = verdict (params_object params) def).
  { intros def Hin. apply verdict_stable.
    - exact (Hget def Hin).
    - intros msg Hmsg.
      pose proof (verdict_problem (params_object params) def) as Hvp.
      rewrite Hmsg in Hvp.
      rewrite (proj1 (problems_nil _ _) Hp def Hin) in Hvp. discriminate.
    - intros e. apply Ha. exact Hin.
    - unfold entry_stable. cbv zeta. intros Hw.
      assert (Hcw : clean_value (obj_get V (name def)) = true).
      { apply (Hclean (name def)).
        apply obj_get_In; [reflexivity | exact (Hnames def Hin) | exact Hw]. }
      specialize (Hget def Hin).
      set (w := obj_get V (name def)) in *.
      unfold verdict in Hget.
      destruct (nullish (obj_get (params_object params) (name def)))
        eqn:Hnull.
      + destruct (required def) eqn:Hreq;
          [rewrite Hget in Hw; discriminate|].
        destruct (is_undefined (defaultValue def));
          [rewrite Hget in Hw; discriminate|].
        destruct (Hdefaults def Hin) as [Hr|[Hdn|[Hty Hpat]]].
        * congruence.
        * rewrite Hget in Hw. congruence.
        * rewrite Hget. split; [|intros _; exact Hpat].
          apply typed_clean_fixed; [exact Hty|]. rewrite <- Hget. exact Hcw.
      + destruct (validateParameterType (name def)
                    (obj_get (params_object params) (name def)) (type def))
          as [error|v] eqn:Hco; [rewrite Hget in Hw; discriminate|].
        destruct (pattern_verdict def v) as [|v'|msg|e] eqn:Hpv;
          try (rewrite Hget in Hw; discriminate).
        pose proof (pattern_verdict_put _ _ Hpv) as ->.
        split; [|discriminate].
        rewrite Hget. apply typed_clean_fixed.
        * exact (coerced_has_type _ _ _ Hco).
        * rewrite <- Hget. exact Hcw. }
  unfold validateParameters in *. cbn [params_object].
  rewrite (validate_defs_ext V (params_object params) defs Hsame).
  exact Hrun.
Qed.

End RevalidationFacts.

(** C7 (as stated) fails, in each of the ways the amended statement
    excludes.  A text: validating [{comment: a CR CR LF b}] gives
    [{comment: a CR LF b}], and validating that gives [{comment: a LF b}].
    A list: the text [a BEL , b] is cut into [a BEL] and [b], which the
    second validation sanitizes.  A default: [xml] is substituted for the
    missing [mode] without the pattern check, which it fails the second
    time.  Two definitions of one name: the default of the second is
    stored, and fails the pattern of the first the second time.  A name of
    [Object.prototype]: [toString] given as [null] is left out, and the
    second validation reads the inherited function. *)
Lemma validate_not_idempotent :
  (@InputValidation.validateParameters Sample.asciiRuntime
     (Some [(js "comment", VString [97; 13; 13; 10; 98]%N)])
     [Sample.commentDef]
   = Ok [(js "comment", VString [97; 13; 10; 98]%N)]
   /\ @InputValidation.validateParameters Sample.asciiRuntime
        (Some [(js "comment", VString [97; 13; 10; 98]%N)])
        [Sample.commentDef]
      = Ok [(js "comment", VString [97; 10; 98]%N)])
  /\ (@InputValidation.validateParameters Sample.asciiRuntime
        (Some [(js "tags", VString [97; 7; 44; 98]%N)])
        [Sample.listDef "tags"]
      = Ok [(js "tags", VArray [VString [97; 7]%N; VString [98]%N])]
      /\ @InputValidation.validateParameters Sample.asciiRuntime
           (Some [(js "tags", VArray [VString [97; 7]%N; VString [98]%N])])
           [Sample.listDef "tags"]
         = Ok [(js "tags", VArray [VString [97]%N; VString [98]%N])])
  /\ (@InputValidation.validateParameters Sample.asciiRuntime (Some [])
        [Sample.modeDef]
      = Ok [(js "mode", VString (js "xml"))]
      /\ @InputValidation.validateParameters Sample.asciiRuntime
           (Some [(js "mode", VString (js "xml"))]) [Sample.modeDef]
         = Throw (Error (js ("Invalid parameters: "
                               ++ "Invalid format for parameter: mode"))))
  /\ (@InputValidation.validateParameters Sample.asciiRuntime (Some [])
        [Sample.strictLevelDef; Sample.looseLevelDef]
      = Ok [(js "level", VString (js "medium"))]
      /\ @InputValidation.validateParameters Sample.asciiRuntime
           (Some [(js "level", VString (js "medium"))])
           [Sample.strictLevelDef; Sample.looseLevelDef]
         = Throw (Error (js ("Invalid parameters: "
                               ++ "Invalid format for parameter: level"))))
  /\ (@InputValidation.validateParameters Sample.asciiRuntime
        (Some [(js "toString", VNull)]) [Sample.textDef "toString"]
      = Ok []
      /\ @InputValidation.validateParameters Sample.asciiRuntime (Some [])
           [Sample.textDef "toString"]
         = Throw (Error (js ("Invalid parameters: "
                               ++ "Parameter toString must be a string")))).
Proof. repeat split. Qed.

(** The amended C7 at the parameters of [disk_usage], called with
    [{format: " json "}]: the default of [min-size] is substituted, the
    text is trimmed, and the output validates to itself. *)
Lemma validate_idempotent_witness :
  @InputValidation.validateParameters Sample.asciiRuntime
    (Some [(js "min-size", VNumber (Some 0%Z));
           (js "format", VString (js "json"))])
    [Sample.minSizeDef; Sample.diskFormatDef]
  = Ok [(js "min-size", VNumber (Some 0%Z));
        (js "format", VString (js "json"))].
Proof.
  apply (@validate_idempotent Sample.asciiRuntime
           (Some [(js "format", VString (js " json "))])).
  - repeat constructor; simpl; intuition discriminate.
  - intros def [<-|[<-|[]]]; reflexivity.
  - intros def [<-|[<-|[]]]; right; right; (split; [reflexivity|]).
    + exact I.
    + eexists. split; reflexivity.
  - reflexivity.
  - intros k v [E|[E|[]]]; inversion E; reflexivity.
Defined.

(* ================================================================== *)
(** * Further properties: lookup, path and process *)
(* ================================================================== *)

Section ExecutionFacts.
Context {rt : JSRuntime}.
Import InputValidation TaskService Vocabulary Shapes.

(** X9.  [getModuleById] only ever returns a module of the collection that
    is enabled and whose identifier is the sanitized request, a non-empty
    string of lower-case letters, digits and underscores. *)
Theorem getModuleById_found (w : World) (moduleId : val) (module : Module) :
  getModuleById w moduleId = Ok module ->
  In module (modules w)
  /\ isActive module = true
  /\ sanitizeModuleId moduleId = Some (TaskService.moduleId module)
  /\ nonempty (TaskService.moduleId module) = true
  /\ forallb isModuleIdChar (TaskService.moduleId module) = true.
Proof.
  unfold getModuleById, Module_findOne.
  destruct (sanitizeModuleId moduleId) as [id|] eqn:Hs; simpl;
    [|discriminate].
  destruct (nonempty id) eqn:Hne; simpl; [|discriminate].
  destruct (module_fault w id); simpl; [discriminate|].
  destruct (find _ (modules w)) as [m|] eqn:Hf; simpl; [|discriminate].
  intros H. inversion H; subst m.
  apply find_some in Hf as [Hin Hm].
  apply andb_true_iff in Hm as [Hid Hact].
  pose proof (sanitizeModuleId_chars _ Hs) as Hchars.
  apply eqb_js_eq in Hid. rewrite (ids_trimmed _ Hchars) in Hid. subst id.
  repeat split; assumption.
Qed.

(** X10.  [getScriptPath] returns a path exactly when every character of
    the name is a letter, a digit, [_], [.] or [-] and the file
    [cwd/scripts/name] exists; the path is that file. *)
Theorem getScriptPath_resolves (w : World) (scriptName p : jsstring) :
  getScriptPath w scriptName = Some p
  <-> forallb isScriptNameChar scriptName = true
      /\ p = path_join w [cwd w; js "scripts"; scriptName]
      /\ existsSync w p = true.
Proof.
  unfold getScriptPath. split.
  - destruct (eqb_js (filter isScriptNameChar scriptName) scriptName) eqn:E;
      simpl; [|discriminate].
    apply eqb_js_eq in E. rewrite E.
    destruct (existsSync w _) eqn:Hex; simpl; [|discriminate].
    intros H. inversion H; subst p.
    split; [apply filter_fixed_forallb; exact E|]. split; [reflexivity|].
    exact Hex.
  - intros (Hall & -> & Hex).
    apply filter_fixed in Hall. cbv zeta. rewrite Hall, eqb_js_refl.
    match goal with
    | |- context [existsSync w ?q] =>
        replace (existsSync w q) with true by (symmetry; exact Hex)
    end.
    reflexivity.
Qed.







Lemma starts_with_app (a b : jsstring) : starts_with a (a ++ b) = true.
Proof.
  induction a as [|c a IH]; simpl; [reflexivity|].
  rewrite N.eqb_refl. exact IH.
Qed.

Lemma starts_with_self (a : jsstring) : starts_with a a = true.
Proof.
  induction a as [|c a IH]; simpl; [reflexivity|].
  rewrite N.eqb_refl. exact IH.
Qed.

Lemma flag_args_prefix (key : jsstring) (value : val) :
  Forall (fun arg => starts_with (js "--" ++ key) arg = true)
    (flag_args key value).
Proof.
  assert (Hlong : forall rest,
            starts_with (js "--" ++ key) (js "--" ++ key ++ js "=" ++ rest)
            = true).
  { intros rest. rewrite (app_assoc (js "--") key). apply starts_with_app. }
  destruct value as [| | b | n | s | items | props | fname]; unfold flag_args.
  - constructor.
  - constructor.
  - destruct b; constructor; [apply starts_with_self | constructor].
  - constructor; [apply Hlong | constructor].
  - constructor; [apply Hlong | constructor].
  - apply Forall_map, Forall_forall. intros item _. apply Hlong.
  - constructor; [apply Hlong | constructor].
  - constructor; [apply Hlong | constructor].
Qed.

(** X13.  Every argument built from a validated mapping starts with [--]
    followed by the name of a definition of the schema: what the caller
    supplies can appear only after the name of a declared parameter. *)
Theorem validated_args_are_declared_flags (parameters : option JSObject)
    (defs : list ParameterDefinition) (V : JSObject) :
  validateParameters parameters defs = Ok V ->
  Forall (fun arg =>
            exists def, In def defs
                        /\ starts_with (js "--" ++ name def) arg = true)
    (paramsToArgs V).
Proof.
  intros H.
  destruct (validateParameters_output _ _ H) as (HV & _ & _).
  pose proof (set_all_keys (puts (params_object parameters) defs)) as Hs.
  specialize (Hs [] (NoDup_nil _)). destruct Hs as [_ Hk].
  rewrite <- HV in Hk.
  unfold paramsToArgs.
  rewrite paramsToArgs_fold. cbn [app].
  apply Forall_forall. intros arg Harg.
  apply in_flat_map in Harg as ([key value] & Hentry & Hin). simpl in Hin.
  apply (Permutation_in _ (Object_entries_perm V)) in Hentry.
  assert (Hkey : In key (keys V)).
  { unfold keys. apply in_map_iff. exists (key, value). auto. }
  destruct (Hk key Hkey) as [[]|Hp].
  apply puts_keys in Hp. apply in_map_iff in Hp as (def & E & Hd).
  exists def. split; [exact Hd|]. rewrite E.
  pose proof (flag_args_prefix key value) as Hf.
  rewrite Forall_forall in Hf. exact (Hf arg Hin).
Qed.

End ExecutionFacts.

(* ================================================================== *)
(** * Further properties: granting, revoking and deleting *)
(* ================================================================== *)

Section RoleAdminFacts.
Context {rt : JSRuntime}.
Import RoleService RoleAdmin.

Lemma find_name (rs : list Role) (roleName : jsstring) (role : Role) :
  find (fun r => eqb_js (name r) roleName) rs = Some role ->
  name role = roleName /\ In role rs.
Proof.
  intros H. apply find_some in H as [Hin Hn].
  apply eqb_js_eq in Hn. auto.
Qed.

(** Writing a role back puts it where the first role of its name was. *)
Lemma find_replace_first (rs : list Role) (role role' : Role) :
  find (fun r => eqb_js (name r) (name role')) rs = Some role ->
  find (fun r => eqb_js (name r) (name role')) (replace_first rs role')
  = Some role'.
Proof.
  induction rs as [|r rs IH]; simpl; [discriminate|].
  destruct (eqb_js (name r) (name role')) eqn:E; simpl.
  - intros _. rewrite eqb_js_refl. reflexivity.
  - rewrite E. exact IH.
Qed.

Lemma find_replace_first_other (rs : list Role) (role' : Role)
    (other : jsstring) :
  other <> name role' ->
  find (fun r => eqb_js (name r) other) (replace_first rs role')
  = find (fun r => eqb_js (name r) other) rs.
Proof.
  intros Hne. induction rs as [|r rs IH]; simpl; [reflexivity|].
  destruct (eqb_js (name r) (name role')) eqn:E; simpl.
  - apply eqb_js_eq in E.
    assert (E1 : eqb_js (name role') other = false)
      by (apply eqb_js_neq; congruence).
    assert (E2 : eqb_js (name r) other = false)
      by (apply eqb_js_neq; congruence).
    rewrite E1, E2. reflexivity.
  - rewrite IH. reflexivity.
Qed.

(** Writing back the role that was read changes nothing. *)
Lemma replace_first_same (rs : list Role) (role : Role) :
  find (fun r => eqb_js (name r) (name role)) rs = Some role ->
  replace_first rs role = rs.
Proof.
  induction rs as [|r rs IH]; simpl; [reflexivity|].
  destruct (eqb_js (name r) (name role)) eqn:E.
  - intros H. inversion H. reflexivity.
  - intros H. rewrite (IH H). reflexivity.
Qed.

Lemma replace_first_twice (rs : list Role) (r1 r2 : Role) :
  name r1 = name r2 ->
  replace_first (replace_first rs r1) r2 = replace_first rs r2.
Proof.
  intros Hn. induction rs as [|r rs IH]; simpl; [reflexivity|].
  rewrite Hn. destruct (eqb_js (name r) (name r2)) eqn:E; simpl.
  - rewrite Hn, eqb_js_refl. reflexivity.
  - rewrite E, IH. reflexivity.
Qed.

(** With pairwise distinct names, the roles after a write are the role
    written and the roles of other names. *)
Lemma In_replace_first (rs : list Role) (role role' r : Role) :
  NoDup (map name rs) ->
  find (fun r => eqb_js (name r) (name role')) rs = Some role ->
  (In r (replace_first rs role')
   <-> r = role' \/ (In r rs /\ name r <> name role')).
Proof.
  induction rs as [|r0 rs IH]; simpl; [discriminate|].
  intros Hnd. inversion Hnd as [|k l Hk Hnd']; subst.
  destruct (eqb_js (name r0) (name role')) eqn:E; simpl.
  - intros _. apply eqb_js_eq in E. split.
    + intros [<-|Hin]; [left; reflexivity|]. right. split; [right; exact Hin|].
      intros Hn. apply Hk. rewrite E, <- Hn. apply in_map. exact Hin.
    + intros [->|[[<-|Hin] Hn]]; [left; reflexivity | congruence | right; exact Hin].
  - intros Hf. rewrite (IH Hnd' Hf). apply eqb_js_neq in E. split.
    + intros [<-|[->|[Hin Hn]]]; auto.
    + intros [->|[[<-|Hin] Hn]]; auto.
Qed.

(** What a grant that succeeds has read and written. *)
Lemma addModulePermission_inv (odm : Odm) (db : RoleDb)
    (roleName moduleId description : jsstring) (role' : Role)
    (db' : RoleDb) :
  addModulePermission odm db roleName moduleId description = Ok (role', db') ->
  exists role,
    fault db (FindOneByName roleName) = None
    /\ find (fun r => eqb_js (name r) (trim roleName)) (roles db) = Some role
    /\ name role' = trim roleName
    /\ level role' = level role
    /\ fault db' = fault db
    /\ find (fun r => eqb_js (name r) (trim roleName)) (roles db')
       = Some role'
    /\ ((exists p, In p (permissions role)
                   /\ RoleService.moduleId p = moduleId)
        /\ role' = role /\ db' = db
        \/ (forall p, In p (permissions role) ->
                      RoleService.moduleId p <> moduleId)
           /\ permissions role'
              = permissions role
                  ++ [cast_permission odm moduleId description]).
Proof.
  unfold addModulePermission, getRoleByName, Role_findOne, Role_save.
  destruct (fault db (FindOneByName roleName)) eqn:Hfault; simpl;
    [discriminate|].
  destruct (find (fun r => eqb_js (name r) (trim roleName)) (roles db))
    as [role|] eqn:Hfind; simpl; [|discriminate].
  destruct (find_name _ _ Hfind) as [Hname Hin].
  destruct (find (fun p => eqb_js (RoleService.moduleId p) moduleId)
              (permissions role)) as [p|] eqn:Hp.
  - simpl. intros H. inversion H; subst role' db'.
    exists role. repeat split; try assumption; try reflexivity.
    left. apply find_some in Hp as [Hpin Hpid].
    apply eqb_js_eq in Hpid. eauto.
  - destruct (save_fault odm _); simpl; [discriminate|].
    intros H. inversion H; subst role' db'. clear H.
    exists role. simpl. repeat split; try assumption; try reflexivity.
    + pose proof (@find_replace_first (roles db) role
                    (mkRole (name role) (RoleService.description role)
                       (level role)
                       (permissions role
                          ++ [cast_permission odm moduleId description])))
        as Hrep.
      cbn [name] in Hrep. rewrite <- Hname. rewrite <- Hname in Hfind.
      exact (Hrep Hfind).
    + right. split; [|reflexivity].
      intros p Hpin Hpid.
      apply (find_none _ _ Hp) in Hpin. apply eqb_js_neq in Hpin.
      exact (Hpin Hpid).
Qed.

Lemma hasModuleAccess_own (db : RoleDb) (roleName moduleId : jsstring)
    (role : Role) (p : Permission) :
  (forall q, fault db q = None) ->
  find (fun r => eqb_js (name r) (trim roleName)) (roles db) = Some role ->
  In p (permissions role) ->
  RoleService.moduleId p = moduleId ->
  hasModuleAccess db roleName moduleId = Ok true.
Proof.
  intros Hfault Hfind Hp Hid.
  destruct (getAccessibleModules_found db roleName Hfault Hfind)
    as (modules & Hget & _ & Hin).
  unfold hasModuleAccess. rewrite Hget. simpl. f_equal.
  apply includes_In, Hin. exists role, p.
  destruct (find_name _ _ Hfind) as [_ Hr].
  repeat split; auto. apply Z.le_refl.
Qed.

(** X14.  When the mapper keeps the identifier of a pushed permission and
    the store answers its queries, a grant that succeeds returns the role
    as it is stored afterwards under that name, with the level it had.
    When the role had a permission for the module, the role and the
    collection are as they were; when it had none, the role has the
    permissions it had and the new one after them.  In both cases the role
    has access to the module afterwards. *)
Theorem addModulePermission_grants (odm : Odm) (db : RoleDb)
    (roleName moduleId description : jsstring) (role' : Role)
    (db' : RoleDb) :
  (forall q, fault db q = None) ->
  RoleService.moduleId (cast_permission odm moduleId description) = moduleId ->
  addModulePermission odm db roleName moduleId description = Ok (role', db') ->
  exists role,
    getRoleByName db roleName = Ok (Some role)
    /\ getRoleByName db' roleName = Ok (Some role')
    /\ level role' = level role
    /\ ((exists p, In p (permissions role)
                   /\ RoleService.moduleId p = moduleId) ->
        role' = role /\ db' = db)
    /\ ((forall p, In p (permissions role) ->
                   RoleService.moduleId p <> moduleId) ->
        permissions role'
        = permissions role ++ [cast_permission odm moduleId description])
    /\ hasModuleAccess db' roleName moduleId = Ok true.
Proof.
  intros Hfault Hcast Hadd.
  destruct (addModulePermission_inv _ _ _ _ _ Hadd)
    as (role & Hq & Hfind & Hname & Hlevel & Hf' & Hfind' & Hcases).
  assert (Hfault' : forall q, fault db' q = None)
    by (intros q; rewrite Hf'; apply Hfault).
  exists role. unfold getRoleByName, Role_findOne.
  rewrite Hfault, Hfault', Hfind, Hfind'. simpl.
  split; [reflexivity|]. split; [reflexivity|]. split; [exact Hlevel|].
  split; [|split].
  - intros (p & Hp & Hid).
    destruct Hcases as [(_ & -> & ->)|[Hnone _]]; [auto|].
    exfalso. exact (Hnone p Hp Hid).
  - intros Hnone.
    destruct Hcases as [((p & Hp & Hid) & _)|[_ Hperm]]; [|exact Hperm].
    exfalso. exact (Hnone p Hp Hid).
  - destruct Hcases as [((p & Hp & Hid) & -> & ->)|[_ Hperm]].
    + eapply hasModuleAccess_own; [exact Hfault | exact Hfind | exact Hp|].
      exact Hid.
    + eapply hasModuleAccess_own; [exact Hfault' | exact Hfind' | |].
      * rewrite Hperm. apply in_or_app. right. left. reflexivity.
      * exact Hcast.
Qed.

(** X15.  When the mapper keeps the identifier of a pushed permission,
    granting again what was granted changes nothing: after a grant that
    succeeded, a second grant of the same module to the same role, with any
    description, returns the same role and leaves the collection as it is;
    and a grant keeps the module identifiers of a role pairwise
    distinct. *)
Theorem addModulePermission_idempotent (odm : Odm) (db : RoleDb)
    (roleName moduleId description : jsstring) (role' : Role)
    (db' : RoleDb) :
  RoleService.moduleId (cast_permission odm moduleId description) = moduleId ->
  addModulePermission odm db roleName moduleId description = Ok (role', db') ->
  (forall description',
     addModulePermission odm db' roleName moduleId description'
     = Ok (role', db'))
  /\ (forall role,
        getRoleByName db roleName = Ok (Some role) ->
        NoDup (map RoleService.moduleId (permissions role)) ->
        NoDup (map RoleService.moduleId (permissions role'))).
Proof.
  intros Hcast Hadd.
  destruct (addModulePermission_inv _ _ _ _ _ Hadd)
    as (role & Hq & Hfind & Hname & Hlevel & Hf' & Hfind' & Hcases).
  split.
  - intros description'.
    unfold addModulePermission, getRoleByName, Role_findOne.
    rewrite Hf', Hq, Hfind'. simpl.
    assert (Hhas : exists p, In p (permissions role')
                             /\ RoleService.moduleId p = moduleId).
    { destruct Hcases as [(Hex & -> & _)|[_ Hperm]]; [exact Hex|].
      exists (cast_permission odm moduleId description).
      split; [|exact Hcast]. rewrite Hperm.
      apply in_or_app. right. left. reflexivity. }
    destruct Hhas as (p & Hp & Hid).
    destruct (find (fun p => eqb_js (RoleService.moduleId p) moduleId)
                (permissions role')) eqn:Hf; [reflexivity|].
    apply (find_none _ _ Hf) in Hp. apply eqb_js_neq in Hp. congruence.
  - intros role0 Hget Hnd.
    unfold getRoleByName, Role_findOne in Hget.
    rewrite Hq, Hfind in Hget. simpl in Hget. inversion Hget; subst role0.
    destruct Hcases as [(_ & -> & _)|[Hnone Hperm]]; [exact Hnd|].
    rewrite Hperm, map_app. simpl. rewrite Hcast.
    apply NoDup_rev in Hnd.
    rewrite <- (rev_involutive (_ ++ [moduleId])).
    apply NoDup_rev. rewrite rev_app_distr. simpl.
    constructor; [|exact Hnd].
    rewrite <- in_rev. intros Hin.
    apply in_map_iff in Hin as (p & Hid & Hp). exact (Hnone p Hp Hid).
Qed.

End RoleAdminFacts.

Section RevokeFacts.
Context {rt : JSRuntime}.
Import RoleService RoleAdmin.

(** What a revocation that succeeds has read and written. *)
Lemma removeModulePermission_inv (odm : Odm) (db : RoleDb)
    (roleName moduleId : jsstring) (role' : Role) (db' : RoleDb) :
  removeModulePermission odm db roleName moduleId = Ok (role', db') ->
  exists role,
    fault db (FindOneByName roleName) = None
    /\ find (fun r => eqb_js (name r) (trim roleName)) (roles db) = Some role
    /\ role' = mkRole (name role) (RoleService.description role) (level role)
                 (filter (fun p => negb (eqb_js (RoleService.moduleId p)
                                           moduleId))
                    (permissions role))
    /\ db' = mkRoleDb (replace_first (roles db) role') (fault db).
Proof.
  unfold removeModulePermission, getRoleByName, Role_findOne, Role_save.
  destruct (fault db (FindOneByName roleName)) eqn:Hfault; simpl;
    [discriminate|].
  destruct (find (fun r => eqb_js (name r) (trim roleName)) (roles db))
    as [role|] eqn:Hfind; simpl; [|discriminate].
  destruct (save_fault odm _); simpl; [discriminate|].
  intros H. inversion H; subst. exists role. auto.
Qed.

(** X16.  A revocation that succeeds returns the role as it is stored
    afterwards under that name: it has the level it had and exactly the
    permissions it had for other modules, none for the revoked module.  The
    role concerned is the one whose name is the given name trimmed; the
    roles of other names are found as before. *)
Theorem removeModulePermission_revokes (odm : Odm) (db : RoleDb)
    (roleName moduleId : jsstring) (role' : Role) (db' : RoleDb) :
  removeModulePermission odm db roleName moduleId = Ok (role', db') ->
  exists role,
    getRoleByName db roleName = Ok (Some role)
    /\ getRoleByName db' roleName = Ok (Some role')
    /\ level role' = level role
    /\ (forall p, In p (permissions role')
                  <-> In p (permissions role)
                      /\ RoleService.moduleId p <> moduleId)
    /\ name role' = trim roleName
    /\ (forall other, other <> trim roleName ->
          find (fun r => eqb_js (name r) other) (roles db')
          = find (fun r => eqb_js (name r) other) (roles db)).
Proof.
  intros Hrem.
  destruct (removeModulePermission_inv _ _ _ _ Hrem)
    as (role & Hq & Hfind & Hrole & Hdb).
  destruct (find_name _ _ Hfind) as [Hname _].
  assert (Hname' : name role' = trim roleName)
    by (rewrite Hrole; exact Hname).
  exists role. unfold getRoleByName, Role_findOne.
  rewrite Hdb. simpl. rewrite Hq, Hfind. simpl.
  split; [reflexivity|]. split; [|split; [|split; [|split]]].
  - f_equal. rewrite <- Hname'. apply (@find_replace_first _ role _).
    rewrite Hname'. exact Hfind.
  - rewrite Hrole. reflexivity.
  - intros p. rewrite Hrole. simpl. rewrite filter_In, negb_true_iff.
    rewrite eqb_js_neq. reflexivity.
  - exact Hname'.
  - intros other Hne. apply find_replace_first_other. congruence.
Qed.

(** X17.  Revoking what was just granted restores the collection: when the
    role had no permission for the module and the mapper keeps the
    identifier, a revocation after the grant returns the role as it was and
    leaves the roles as they were before the grant. *)
Theorem grant_then_revoke (odm : Odm) (db : RoleDb)
    (roleName moduleId description : jsstring) (role r1 r2 : Role)
    (db1 db2 : RoleDb) :
  RoleService.moduleId (cast_permission odm moduleId description) = moduleId ->
  getRoleByName db roleName = Ok (Some role) ->
  (forall p, In p (permissions role) -> RoleService.moduleId p <> moduleId) ->
  addModulePermission odm db roleName moduleId description = Ok (r1, db1) ->
  removeModulePermission odm db1 roleName moduleId = Ok (r2, db2) ->
  r2 = role /\ roles db2 = roles db /\ fault db2 = fault db.
Proof.
  intros Hcast Hget Hnone Hadd Hrem.
  destruct (addModulePermission_inv _ _ _ _ _ Hadd)
    as (role0 & Hq & Hfind & Hname1 & Hlevel1 & Hf1 & Hfind1 & Hcases).
  unfold getRoleByName, Role_findOne in Hget.
  rewrite Hq, Hfind in Hget. simpl in Hget. inversion Hget; subst role0.
  destruct (find_name _ _ Hfind) as [Hname _].
  destruct Hcases as [((p & Hp & Hid) & _)|[_ Hperm]];
    [exfalso; exact (Hnone p Hp Hid)|].
  assert (Hr1 : r1 = mkRole (name role) (RoleService.description role)
                      (level role)
                      (permissions role
                         ++ [cast_permission odm moduleId description])).
  { revert Hadd. unfold addModulePermission, getRoleByName, Role_findOne,
      Role_save. rewrite Hq, Hfind. simpl.
    destruct (find _ (permissions role)) as [p|] eqn:Hp.
    - apply find_some in Hp as [Hp Hid]. apply eqb_js_eq in Hid.
      exfalso. exact (Hnone p Hp Hid).
    - destruct (save_fault odm _); simpl; [discriminate|].
      intros H. inversion H. reflexivity. }
  assert (Hdb1 : roles db1 = replace_first (roles db) r1).
  { revert Hadd. unfold addModulePermission, getRoleByName, Role_findOne,
      Role_save. rewrite Hq, Hfind. simpl.
    destruct (find _ (permissions role)) as [p|] eqn:Hp.
    - apply find_some in Hp as [Hp Hid]. apply eqb_js_eq in Hid.
      exfalso. exact (Hnone p Hp Hid).
    - destruct (save_fault odm _); simpl; [discriminate|].
      intros H. inversion H. reflexivity. }
  destruct (removeModulePermission_inv _ _ _ _ Hrem)
    as (role1 & _ & Hfind1' & Hr2 & Hdb2).
  rewrite Hfind1 in Hfind1'. inversion Hfind1'; subst role1.
  assert (Hfilter : filter (fun p => negb (eqb_js (RoleService.moduleId p)
                                             moduleId)) (permissions r1)
                    = permissions role).
  { rewrite Hperm, filter_app. simpl. rewrite Hcast, eqb_js_refl. simpl.
    rewrite app_nil_r.
    assert (Hall : forall l,
              (forall p, In p l -> RoleService.moduleId p <> moduleId) ->
              filter (fun p => negb (eqb_js (RoleService.moduleId p)
                                       moduleId)) l = l).
    { induction l as [|p l IH]; intros Hl; simpl; [reflexivity|].
      assert (E : eqb_js (RoleService.moduleId p) moduleId = false)
        by (apply eqb_js_neq, Hl; left; reflexivity).
      rewrite E. simpl. rewrite IH; [reflexivity|].
      intros q Hq'. apply Hl. right; exact Hq'. }
    apply Hall, Hnone. }
  assert (E2 : r2 = role).
  { rewrite Hr2, Hfilter, Hr1. simpl. destruct role; reflexivity. }
  split; [exact E2|]. rewrite Hdb2. simpl. split; [|exact Hf1].
  rewrite Hdb1, replace_first_twice.
  - rewrite E2. apply replace_first_same. rewrite Hname. exact Hfind.
  - rewrite E2, Hr1. reflexivity.
Qed.

(** X18.  Revoking does not take away what the role inherits.  With
    pairwise distinct role names and a store that answers, after a
    revocation the role (the one whose name is the given name trimmed)
    still has access to the module exactly when a role of another name and
    of greater or equal level has a permission for it. *)
Theorem revoke_keeps_inherited (odm : Odm) (db : RoleDb)
    (roleName moduleId : jsstring) (role' : Role) (db' : RoleDb) :
  (forall q, fault db q = None) ->
  NoDup (map name (roles db)) ->
  removeModulePermission odm db roleName moduleId = Ok (role', db') ->
  (hasModuleAccess db' roleName moduleId = Ok true
   <-> exists r p, In r (roles db) /\ name r <> trim roleName
                   /\ (level role' <= level r)%Z
                   /\ In p (permissions r)
                   /\ RoleService.moduleId p = moduleId).
Proof.
  intros Hfault Hnd Hrem.
  destruct (removeModulePermission_inv _ _ _ _ Hrem)
    as (role & Hq & Hfind & Hrole & Hdb).
  destruct (find_name _ _ Hfind) as [Hname _].
  assert (Hname' : name role' = trim roleName)
    by (rewrite Hrole; exact Hname).
  assert (Hfind0 : find (fun r => eqb_js (name r) (name role')) (roles db)
                   = Some role) by (rewrite Hname'; exact Hfind).
  assert (Hfind' : find (fun r => eqb_js (name r) (trim roleName)) (roles db')
                   = Some role').
  { rewrite Hdb. simpl. rewrite <- Hname'.
    apply (@find_replace_first _ role _). exact Hfind0. }
  assert (Hfault' : forall q, fault db' q = None)
    by (intros q; rewrite Hdb; apply Hfault).
  destruct (getAccessibleModules_found db' roleName Hfault' Hfind')
    as (modules & Hget & _ & Hin).
  unfold hasModuleAccess. rewrite Hget. simpl.
  assert (Hiff : existsb (eqb_js moduleId) modules = true
                 <-> In moduleId modules) by apply includes_In.
  split.
  - intros H. inversion H as [H']. apply Hiff, Hin in H'.
    destruct H' as (r & p & Hr & Hl & Hp & Hid).
    rewrite Hdb in Hr. simpl in Hr.
    apply (proj1 (@In_replace_first (roles db) role role' r Hnd Hfind0))
      in Hr.
    destruct Hr as [->|[Hr Hn]].
    + exfalso. rewrite Hrole in Hp. simpl in Hp.
      apply filter_In in Hp as [_ Hp]. apply negb_true_iff in Hp.
      apply eqb_js_neq in Hp. exact (Hp Hid).
    + exists r, p. rewrite Hname' in Hn. auto.
  - intros (r & p & Hr & Hn & Hl & Hp & Hid). f_equal. apply Hiff, Hin.
    exists r, p. repeat split; auto.
    rewrite Hdb. simpl.
    apply (proj2 (@In_replace_first (roles db) role role' r Hnd Hfind0)).
    right. split; [exact Hr|]. rewrite Hname'. exact Hn.
Qed.

Lemma remove_first_spec (rs : list Role) (roleName : jsstring) :
  let '(rs', n) := remove_first rs roleName in
  (n = O -> find (fun r => eqb_js (name r) roleName) rs = None /\ rs' = rs)
  /\ (n <> O ->
      n = 1%nat
      /\ (exists role, find (fun r => eqb_js (name r) roleName) rs
                       = Some role)
      /\ S (List.length rs') = List.length rs
      /\ (forall other, other <> roleName ->
            find (fun r => eqb_js (name r) other) rs'
            = find (fun r => eqb_js (name r) other) rs)
      /\ (NoDup (map name rs) ->
          find (fun r => eqb_js (name r) roleName) rs' = None)).
Proof.
  induction rs as [|r rs IH]; simpl.
  - split; [auto | intros H; contradiction].
  - destruct (eqb_js (name r) roleName) eqn:E.
    + split; [discriminate|]. intros _. split; [reflexivity|].
      split; [eauto|]. split; [reflexivity|]. split.
      * intros other Hne. apply eqb_js_eq in E.
        assert (E' : eqb_js (name r) other = false)
          by (apply eqb_js_neq; congruence).
        rewrite E'. reflexivity.
      * intros Hnd. inversion Hnd as [|k l Hk _]; subst.
        apply eqb_js_eq in E.
        destruct (find _ rs) as [r'|] eqn:Hf; [|reflexivity].
        apply find_name in Hf as [Hn Hin]. exfalso. apply Hk.
        rewrite E, <- Hn. apply in_map. exact Hin.
    + destruct (remove_first rs roleName) as [rs' n].
      destruct IH as [IH0 IH1]. split.
      * intros Hn. destruct (IH0 Hn) as [Hf ->]. auto.
      * intros Hn. destruct (IH1 Hn) as (H1 & Hex & Hlen & Hother & Huniq).
        split; [exact H1|]. split; [exact Hex|].
        split; [simpl; f_equal; exact Hlen|]. split.
        -- intros other Hne. simpl. rewrite (Hother other Hne). reflexivity.
        -- intros Hnd. inversion Hnd as [|k l _ Hnd']; subst.
           simpl. rewrite E. exact (Huniq Hnd').
Qed.

(** X19.  [deleteRole] refuses the names [admin], [manager] and [user] as
    they are given, whatever the store holds, and deletes by the name
    trimmed.  When it succeeds, the given name is none of the three, a role
    of the trimmed name existed, the collection has one role fewer, the
    roles of other names are found as before, and with pairwise distinct
    names no role of the trimmed name is left.  It does succeed whenever
    the given name is none of the three, the store accepts the deletion and
    a role of the trimmed name exists: a built-in role is deleted when its
    name is given with white space around it. *)
Theorem deleteRole_by_trimmed_name (odm : Odm) (db : RoleDb)
    (roleName : jsstring) :
  (In roleName [js "admin"; js "manager"; js "user"] ->
   deleteRole odm db roleName
   = Throw (Error (js "Cannot delete core role: " ++ roleName)))
  /\ (forall b db',
        deleteRole odm db roleName = Ok (b, db') ->
        b = true
        /\ ~ In roleName [js "admin"; js "manager"; js "user"]
        /\ (exists role, In role (roles db) /\ name role = trim roleName)
        /\ S (List.length (roles db')) = List.length (roles db)
        /\ (forall other, other <> trim roleName ->
              find (fun r => eqb_js (name r) other) (roles db')
              = find (fun r => eqb_js (name r) other) (roles db))
        /\ (NoDup (map name (roles db)) ->
            find (fun r => eqb_js (name r) (trim roleName)) (roles db')
            = None))
  /\ (~ In roleName [js "admin"; js "manager"; js "user"] ->
      deleteOne_fault odm roleName = None ->
      (exists role, In role (roles db) /\ name role = trim roleName) ->
      exists db', deleteRole odm db roleName = Ok (true, db')).
Proof.
  unfold deleteRole. split; [|split].
  - intros Hcore.
    apply (proj2 (includes_In roleName
                    [js "admin"; js "manager"; js "user"])) in Hcore.
    rewrite Hcore. reflexivity.
  - intros b db'.
    destruct (existsb (eqb_js roleName) [js "admin"; js "manager"; js "user"])
      eqn:Hcore; simpl; [discriminate|].
    unfold Role_deleteOne.
    destruct (deleteOne_fault odm roleName); simpl; [discriminate|].
    pose proof (remove_first_spec (roles db) (trim roleName)) as Hspec.
    destruct (remove_first (roles db) (trim roleName)) as [rs' n]. simpl.
    destruct Hspec as [_ Hpos].
    destruct (Nat.eqb n 0) eqn:Hn; simpl; [discriminate|].
    apply Nat.eqb_neq in Hn.
    destruct (Hpos Hn) as (_ & [role Hfind] & Hlen & Hother & Huniq).
    intros H. inversion H; subst. simpl.
    split; [reflexivity|]. split.
    { intros Hin.
      apply (proj2 (includes_In roleName
                      [js "admin"; js "manager"; js "user"])) in Hin.
      congruence. }
    split.
    { exists role. destruct (find_name _ _ Hfind) as [Hname Hin]. auto. }
    auto.
  - intros Hcore Hfault (role & Hin & Hname).
    destruct (existsb (eqb_js roleName) [js "admin"; js "manager"; js "user"])
      eqn:Hc.
    { exfalso. apply Hcore.
      exact (proj1 (includes_In roleName
                      [js "admin"; js "manager"; js "user"]) Hc). }
    unfold Role_deleteOne. rewrite Hfault. simpl.
    pose proof (remove_first_spec (roles db) (trim roleName)) as Hspec.
    destruct (remove_first (roles db) (trim roleName)) as [rs' n]. simpl.
    destruct Hspec as [Hzero _].
    destruct (Nat.eqb n 0) eqn:Hn; simpl; [|eauto].
    apply Nat.eqb_eq in Hn. destruct (Hzero Hn) as [Hnone _].
    exfalso. apply (find_none _ _ Hnone) in Hin.
    rewrite Hname, eqb_js_refl in Hin. discriminate.
Qed.

(** The Map of [getAllModulePermissions] after the permissions of one
    role, and after all roles. *)
Lemma collect_permissions_spec (perms acc : list Permission) :
  let acc' :=
    fold_left
      (fun modulePermissions permission =>
         if existsb (fun q => eqb_js (RoleService.moduleId q)
                                (RoleService.moduleId permission))
              modulePermissions
         then modulePermissions
         else modulePermissions
                ++ [mkPermission (RoleService.moduleId permission)
                      (permDescription permission)])
      perms acc in
  (NoDup (map RoleService.moduleId acc) ->
   NoDup (map RoleService.moduleId acc'))
  /\ (forall q, In q acc' -> In q acc \/ In q perms)
  /\ (forall m, In m (map RoleService.moduleId acc')
                <-> In m (map RoleService.moduleId acc)
                    \/ In m (map RoleService.moduleId perms)).
Proof.
  revert acc; induction perms as [|p perms IH]; intros acc; cbv zeta; simpl.
  - repeat split; auto. intros [H|[]]; exact H.
  - set (acc1 := if existsb _ acc then acc else acc ++ [_]).
    destruct (IH acc1) as (IHn & IHi & IHm). cbv zeta in IHn, IHi, IHm.
    assert (Hhas : existsb (fun q => eqb_js (RoleService.moduleId q)
                                       (RoleService.moduleId p)) acc = true
                   <-> In (RoleService.moduleId p)
                         (map RoleService.moduleId acc)).
    { rewrite existsb_exists, in_map_iff. split.
      - intros (q & Hq & E). apply eqb_js_eq in E. eauto.
      - intros (q & E & Hq). exists q. split; [exact Hq|].
        apply eqb_js_eq. exact E. }
    assert (Heta : mkPermission (RoleService.moduleId p) (permDescription p)
                   = p) by (destruct p; reflexivity).
    split; [|split].
    + intros Hnd. apply IHn. unfold acc1.
      destruct (existsb _ acc) eqn:E; [exact Hnd|].
      rewrite map_app. simpl.
      apply NoDup_rev in Hnd.
      rewrite <- (rev_involutive (_ ++ [RoleService.moduleId p])).
      apply NoDup_rev. rewrite rev_app_distr. simpl.
      constructor; [|exact Hnd].
      rewrite <- in_rev. intros Hin. apply Hhas in Hin. congruence.
    + intros q Hq. destruct (IHi q Hq) as [H|H]; [|auto].
      unfold acc1 in H. destruct (existsb _ acc); [auto|].
      apply in_app_or in H as [H|[H|[]]]; [auto|].
      rewrite Heta in H. auto.
    + intros m. rewrite IHm. unfold acc1.
      destruct (existsb _ acc) eqn:E.
      * pose proof (proj1 Hhas eq_refl) as Hin'. split; [tauto|].
        intros [H|[<-|H]]; auto.
      * rewrite map_app, in_app_iff. simpl. tauto.
Qed.

Lemma collect_roles_spec (rs : list Role) (acc : list Permission) :
  let acc' :=
    fold_left
      (fun modulePermissions role =>
         fold_left
           (fun modulePermissions permission =>
              if existsb (fun q => eqb_js (RoleService.moduleId q)
                                     (RoleService.moduleId permission))
                   modulePermissions
              then modulePermissions
              else modulePermissions
                     ++ [mkPermission (RoleService.moduleId permission)
                           (permDescription permission)])
           (permissions role) modulePermissions)
      rs acc in
  (NoDup (map RoleService.moduleId acc) ->
   NoDup (map RoleService.moduleId acc'))
  /\ (forall q, In q acc' ->
                In q acc \/ exists r, In r rs /\ In q (permissions r))
  /\ (forall m, In m (map RoleService.moduleId acc')
                <-> In m (map RoleService.moduleId acc)
                    \/ exists r p, In r rs /\ In p (permissions r)
                                   /\ RoleService.moduleId p = m).
Proof.
  revert acc; induction rs as [|r rs IH]; intros acc; cbv zeta; simpl.
  - repeat split; auto. intros [H|(r & p & [] & _)]; exact H.
  - destruct (collect_permissions_spec (permissions r) acc)
      as (Pn & Pi & Pm). cbv zeta in Pn, Pi, Pm.
    match goal with
    | |- context [fold_left _ rs ?a] =>
        destruct (IH a) as (IHn & IHi & IHm)
    end.
    cbv zeta in IHn, IHi, IHm. split; [|split].
    + intros Hnd. apply IHn, Pn, Hnd.
    + intros q Hq. destruct (IHi q Hq) as [H|(r' & Hr & Hp)]; [|eauto].
      destruct (Pi q H) as [H'|H']; eauto.
    + intros m. rewrite IHm, Pm. split.
      * intros [[H|H]|(r' & p & Hr & Hp & E)]; eauto 8.
        apply in_map_iff in H as (p & E & Hp). eauto 8.
      * intros [H|(r' & p & [<-|Hr] & Hp & E)]; eauto 8.
        left. right. apply in_map_iff. eauto.
Qed.

(** X20.  When the sort of the store returns the roles it was given, in
    some order, [getAllModulePermissions] lists each module identifier
    granted to any role exactly once, and every entry it lists is a
    permission of some role. *)
Theorem getAllModulePermissions_unique (odm : Odm) (db : RoleDb) :
  (forall rs, Permutation rs (sort_level odm rs)) ->
  find_fault odm = None ->
  exists perms,
    getAllModulePermissions odm db = Ok perms
    /\ NoDup (map RoleService.moduleId perms)
    /\ (forall q, In q perms ->
                  exists r, In r (roles db) /\ In q (permissions r))
    /\ (forall m, In m (map RoleService.moduleId perms)
                  <-> exists r p, In r (roles db) /\ In p (permissions r)
                                  /\ RoleService.moduleId p = m).
Proof.
  intros Hperm Hfault.
  unfold getAllModulePermissions, getAllRoles, Role_find_sorted.
  rewrite Hfault. simpl. eexists. split; [reflexivity|].
  destruct (collect_roles_spec (sort_level odm (roles db)) [])
    as (Hn & Hi & Hm). cbv zeta in Hn, Hi, Hm.
  assert (Hsame : forall r, In r (sort_level odm (roles db))
                            <-> In r (roles db)).
  { intros r. split; apply Permutation_in;
      [apply Permutation_sym|]; apply Hperm. }
  split; [apply Hn; constructor|]. split.
  - intros q Hq. destruct (Hi q Hq) as [[]|(r & Hr & Hp)].
    exists r. split; [apply Hsame, Hr | exact Hp].
  - intros m. rewrite Hm. split.
    + intros [[]|(r & p & Hr & Hp & E)]. exists r, p.
      split; [apply Hsame, Hr | auto].
    + intros (r & p & Hr & Hp & E). right. exists r, p.
      split; [apply Hsame, Hr | auto].
Qed.

End RevokeFacts.

(* ================================================================== *)
(** * Further properties: the execute route *)
(* ================================================================== *)

Section RouteFacts.
Context {rt : JSRuntime}.
Import InputValidation TaskService ModuleRoutes Shapes.


(** X21.  The execute route refuses without creating a process: with
    status 400 when the identifier sanitizes to nothing, with status 401
    when no user is attached, and with status 403 when the module is not
    among the accessible modules of the user's role or their resolution
    throws (so an unknown role and a failing store are answered 403). *)
Theorem execute_route_refuses (w : World) (db : RoleService.RoleDb)
    (errorsArray : val) (user : option User) (rawModuleId : jsstring)
    (parameters : option JSObject) :
  ((sanitizeModuleId (VString rawModuleId) = None
    \/ sanitizeModuleId (VString rawModuleId) = Some []) ->
   execute_route w db errorsArray user rawModuleId parameters
   = ([], Respond 400 (VObject [(js "errors", errorsArray)])))
  /\ (forall id,
        sanitizeModuleId (VString rawModuleId) = Some id ->
        nonempty id = true ->
        (user = None ->
         execute_route w db errorsArray user rawModuleId parameters
         = ([], Respond 401
                  (error_body (js "Unauthorized: Authentication required"))))
        /\ (forall u,
              user = Some u ->
              (exists modules,
                 RoleService.getAccessibleModules db (user_role u)
                 = Ok modules /\ ~ In id modules)
              \/ (exists e,
                    RoleService.getAccessibleModules db (user_role u)
                    = Throw e) ->
              execute_route w db errorsArray user rawModuleId parameters
              = ([], Respond 403
                       (error_body
                          (js "Forbidden: You do not have access to this module"))))).
Proof.
  unfold execute_route. split.
  - intros [->| ->]; reflexivity.
  - intros id -> ->. simpl negb. cbv iota. split.
    + intros ->. reflexivity.
    + intros u -> Hdenied. unfold requireModuleAccess.
      assert (Hno : RoleService.hasModuleAccess db (user_role u) id
                    = Ok false).
      { unfold RoleService.hasModuleAccess.
        destruct Hdenied as [(modules & -> & Hnot)|[e ->]]; [|reflexivity].
        simpl. f_equal.
        destruct (existsb (eqb_js id) modules) eqn:E; [|reflexivity].
        apply includes_In in E. contradiction. }
      rewrite Hno. reflexivity.
Qed.


End RouteFacts.

(* ================================================================== *)
(** * The further properties at concrete data *)
(* ================================================================== *)

(** X9 at the request [" System_Info "], which is trimmed and
    lower-cased. *)
Lemma getModuleById_found_witness :
  In Sample.systemInfoModule (TaskService.modules Sample.sampleWorld)
  /\ TaskService.isActive Sample.systemInfoModule = true
  /\ @InputValidation.sanitizeModuleId Sample.asciiRuntime
       (VString (js " System_Info "))
     = Some (TaskService.moduleId Sample.systemInfoModule)
  /\ nonempty (TaskService.moduleId Sample.systemInfoModule) = true
  /\ forallb InputValidation.isModuleIdChar
       (TaskService.moduleId Sample.systemInfoModule) = true.
Proof.
  exact (@getModuleById_found Sample.asciiRuntime Sample.sampleWorld
           (VString (js " System_Info ")) Sample.systemInfoModule eq_refl).
Defined.




(** X13 at the parameters of [disk_usage], called with
    [{format: "json"}]. *)
Lemma validated_args_are_declared_flags_witness :
  Forall (fun arg =>
            exists def, In def [Sample.minSizeDef; Sample.diskFormatDef]
                        /\ Vocabulary.starts_with
                             (js "--" ++ InputValidation.name def) arg = true)
    [js "--min-size=0"; js "--format=json"].
Proof.
  exact (@validated_args_are_declared_flags Sample.asciiRuntime
           (Some [(js "format", VString (js "json"))])
           [Sample.minSizeDef; Sample.diskFormatDef]
           [(js "min-size", VNumber (Some 0%Z));
            (js "format", VString (js "json"))] eq_refl).
Defined.

(** X14 at the default roles: granting [reports] to [user]. *)
Lemma addModulePermission_grants_witness :
  match @RoleAdmin.addModulePermission Sample.asciiRuntime Sample.sampleOdm
          Sample.sampleDb (js "user") (js "reports") (js "Access to reports")
  with
  | Ok (role', db') =>
      RoleService.hasModuleAccess db' (js "user") (js "reports") = Ok true
  | Throw _ => False
  end.
Proof.
  destruct (@RoleAdmin.addModulePermission Sample.asciiRuntime
              Sample.sampleOdm Sample.sampleDb (js "user") (js "reports")
              (js "Access to reports")) as [[role' db']|e] eqn:Hadd;
    [|vm_compute in Hadd; discriminate].
  destruct (@addModulePermission_grants Sample.asciiRuntime Sample.sampleOdm
              Sample.sampleDb (js "user") (js "reports")
              (js "Access to reports") role' db' (fun _ => eq_refl) eq_refl
              Hadd) as (role & _ & _ & _ & _ & _ & Hacc).
  exact Hacc.
Defined.

(** X15 at the same grant, repeated with another description. *)
Lemma addModulePermission_idempotent_witness :
  match @RoleAdmin.addModulePermission Sample.asciiRuntime Sample.sampleOdm
          Sample.sampleDb (js "user") (js "reports") (js "Access to reports")
  with
  | Ok (role', db') =>
      RoleAdmin.addModulePermission Sample.sampleOdm db' (js "user")
        (js "reports") (js "Reports, again") = Ok (role', db')
  | Throw _ => False
  end.
Proof.
  destruct (@RoleAdmin.addModulePermission Sample.asciiRuntime
              Sample.sampleOdm Sample.sampleDb (js "user") (js "reports")
              (js "Access to reports")) as [[role' db']|e] eqn:Hadd;
    [|vm_compute in Hadd; discriminate].
  destruct (@addModulePermission_idempotent Sample.asciiRuntime
              Sample.sampleOdm Sample.sampleDb (js "user") (js "reports")
              (js "Access to reports") role' db' eq_refl Hadd) as [Hagain _].
  exact (Hagain (js "Reports, again")).
Defined.

(** X16 at the default roles: revoking [system_config] from [admin]. *)
Lemma removeModulePermission_revokes_witness :
  match @RoleAdmin.removeModulePermission Sample.asciiRuntime
          Sample.sampleOdm Sample.sampleDb (js "admin") (js "system_config")
  with
  | Ok (role', db') =>
      RoleService.getRoleByName db' (js "admin") = Ok (Some role')
      /\ forall p, In p (RoleService.permissions role') ->
                   RoleService.moduleId p <> js "system_config"
  | Throw _ => False
  end.
Proof.
  destruct (@RoleAdmin.removeModulePermission Sample.asciiRuntime
              Sample.sampleOdm Sample.sampleDb (js "admin")
              (js "system_config")) as [[role' db']|e] eqn:Hrem;
    [|vm_compute in Hrem; discriminate].
  destruct (@removeModulePermission_revokes Sample.asciiRuntime
              Sample.sampleOdm Sample.sampleDb (js "admin")
              (js "system_config") role' db' Hrem)
    as (role & _ & Hget & _ & Hperm & _ & _).
  split; [exact Hget|]. intros p Hp. exact (proj2 (proj1 (Hperm p) Hp)).
Defined.

(** X17 at the default roles: [reports] granted to [user] and revoked. *)
Lemma grant_then_revoke_witness :
  match @RoleAdmin.addModulePermission Sample.asciiRuntime Sample.sampleOdm
          Sample.sampleDb (js "user") (js "reports") (js "Access to reports")
  with
  | Ok (r1, db1) =>
      match RoleAdmin.removeModulePermission Sample.sampleOdm db1
              (js "user") (js "reports") with
      | Ok (r2, db2) =>
          RoleService.roles db2 = RoleService.roles Sample.sampleDb
      | Throw _ => False
      end
  | Throw _ => False
  end.
Proof.
  destruct (@RoleAdmin.addModulePermission Sample.asciiRuntime
              Sample.sampleOdm Sample.sampleDb (js "user") (js "reports")
              (js "Access to reports")) as [[r1 db1]|e] eqn:Hadd;
    [|vm_compute in Hadd; discriminate].
  destruct (RoleAdmin.removeModulePermission Sample.sampleOdm db1
              (js "user") (js "reports")) as [[r2 db2]|e] eqn:Hrem.
  - refine (proj1 (proj2 (@grant_then_revoke Sample.asciiRuntime
              Sample.sampleOdm Sample.sampleDb (js "user") (js "reports")
              (js "Access to reports")
              (RoleService.mkRole (js "user") (js "Standard user") 10
                 [RoleService.mkPermission (js "dashboard")
                    (js "User dashboard")])
              r1 r2 db1 db2 eq_refl eq_refl _ Hadd Hrem))).
    intros p [<-|[]]. discriminate.
  - vm_compute in Hadd. inversion Hadd; subst.
    vm_compute in Hrem. discriminate.
Defined.

(** X18 at the default roles: [manager] keeps the access to [dashboard] it
    inherits from [user] when [dashboard] is revoked from it. *)
Lemma revoke_keeps_inherited_witness :
  match @RoleAdmin.removeModulePermission Sample.asciiRuntime
          Sample.sampleOdm Sample.sampleDb (js "manager") (js "dashboard")
  with
  | Ok (role', db') =>
      RoleService.hasModuleAccess db' (js "manager") (js "dashboard")
      = Ok true
  | Throw _ => False
  end.
Proof.
  destruct (@RoleAdmin.removeModulePermission Sample.asciiRuntime
              Sample.sampleOdm Sample.sampleDb (js "manager")
              (js "dashboard")) as [[role' db']|e] eqn:Hrem;
    [|vm_compute in Hrem; discriminate].
  assert (Hnd : NoDup (map RoleService.name
                         (RoleService.roles Sample.sampleDb))).
  { repeat constructor; simpl; intuition discriminate. }
  apply (proj2 (@revoke_keeps_inherited Sample.asciiRuntime Sample.sampleOdm
                  Sample.sampleDb (js "manager") (js "dashboard") role' db'
                  (fun _ => eq_refl) Hnd Hrem)).
  exists (RoleService.mkRole (js "user") (js "Standard user") 10
            [RoleService.mkPermission (js "dashboard") (js "User dashboard")]),
    (RoleService.mkPermission (js "dashboard") (js "User dashboard")).
  vm_compute in Hrem. inversion Hrem; subst.
  repeat split.
  - right; right; left; reflexivity.
  - discriminate.
  - discriminate.
  - left; reflexivity.
Defined.

(** X19 at the default roles: [admin] cannot be deleted under its name,
    and is deleted under its name with a space before and after. *)
Lemma deleteRole_by_trimmed_name_witness :
  @RoleAdmin.deleteRole Sample.asciiRuntime Sample.sampleOdm Sample.sampleDb
    (js "admin")
  = Throw (Error (js "Cannot delete core role: admin"))
  /\ exists db',
       @RoleAdmin.deleteRole Sample.asciiRuntime Sample.sampleOdm
         Sample.sampleDb (js " admin ") = Ok (true, db')
       /\ find (fun r => eqb_js (RoleService.name r) (js "admin"))
            (RoleService.roles db') = None.
Proof.
  split.
  - apply (proj1 (@deleteRole_by_trimmed_name Sample.asciiRuntime
                    Sample.sampleOdm Sample.sampleDb (js "admin"))).
    left; reflexivity.
  - destruct (@deleteRole_by_trimmed_name Sample.asciiRuntime
                Sample.sampleOdm Sample.sampleDb (js " admin "))
      as (_ & Hsucc & Htotal).
    destruct Htotal as [db' Hdb'].
    + intros [E|[E|[E|[]]]]; discriminate E.
    + reflexivity.
    + eexists. split; [left; reflexivity | reflexivity].
    + exists db'. split; [exact Hdb'|].
      destruct (Hsucc true db' Hdb') as (_ & _ & _ & _ & _ & Huniq).
      apply Huniq. repeat constructor; simpl; intuition discriminate.
Defined.

(** Sorting by insertion returns a permutation. *)
Lemma insert_by_level_permutation (r : RoleService.Role)
    (rs : list RoleService.Role) :
  Permutation (r :: rs) (Sample.insert_by_level r rs).
Proof.
  induction rs as [|r' rs IH]; simpl; [apply Permutation_refl|].
  destruct (Z.leb (RoleService.level r) (RoleService.level r')).
  - apply Permutation_refl.
  - apply perm_trans with (r' :: r :: rs); [apply perm_swap|].
    apply perm_skip. exact IH.
Qed.

Lemma sampleOdm_sort_permutation (rs : list RoleService.Role) :
  Permutation rs (RoleAdmin.sort_level Sample.sampleOdm rs).
Proof.
  simpl. induction rs as [|r rs IH]; simpl; [apply perm_nil|].
  apply perm_trans with (r :: fold_right Sample.insert_by_level [] rs).
  - apply perm_skip. exact IH.
  - apply insert_by_level_permutation.
Qed.

(** X20 at the default roles. *)
Lemma getAllModulePermissions_unique_witness :
  exists perms,
    @RoleAdmin.getAllModulePermissions Sample.asciiRuntime Sample.sampleOdm
      Sample.sampleDb = Ok perms
    /\ NoDup (map RoleService.moduleId perms).
Proof.
  destruct (@getAllModulePermissions_unique Sample.asciiRuntime
              Sample.sampleOdm Sample.sampleDb sampleOdm_sort_permutation
              eq_refl) as (perms & Hget & Hnd & _).
  exists perms. split; assumption.
Defined.

(** X21 and X22 at scenario A of the deployment: [user] is granted
    [system_info] only.  A request for [user_list] is answered 403 and runs
    nothing; a request for [system_info] runs the script of that module. *)
Lemma execute_route_refuses_witness :
  @ModuleRoutes.execute_route Sample.asciiRuntime Sample.sampleWorld
    Sample.scenarioDb VNull (Some Sample.sampleUser) (js "user_list") None
  = ([], ModuleRoutes.Respond 403
           (ModuleRoutes.error_body
              (js "Forbidden: You do not have access to this module"))).
Proof.
  destruct (@execute_route_refuses Sample.asciiRuntime Sample.sampleWorld
              Sample.scenarioDb VNull (Some Sample.sampleUser)
              (js "user_list") None) as [_ H].
  destruct (H (js "user_list") eq_refl eq_refl) as [_ Hdenied].
  apply (Hdenied Sample.sampleUser eq_refl).
  left. exists [js "system_info"]. split; [reflexivity|].
  intros [E|[]]. discriminate E.
Defined.

